(** * neuralmonkey.dataset: a shallow embedding and its verified properties

    The development follows [src/neuralmonkey/dataset.py]: the keyword
    conventions of [load_dataset_from_files], the generator
    [create_dataset_series], the eager [Dataset] and the [LazyDataset].

    Python dictionaries are finite maps ([gmap]); their iteration order is
    the order of [map_to_list].  Python exceptions are values of [exn] and
    fallible code lives in the [result] monad.  Calls to [log] only print
    and are left out. *)

From Stdlib Require Import Ascii String.
From stdpp Require Import gmap strings list fin_maps pretty.

Open Scope string_scope.
Open Scope list_scope.

(** ** Exceptions and fallible computations *)

(** The exceptions that the module can raise.  The code raises the plain
    [Exception] class with a message; [KeyError], [TypeError] and [OSError]
    come from the interpreter and the libraries. *)
Inductive exn : Type :=
  | Exception (msg : string)
  | KeyError (key : string)
  | TypeError (msg : string)
  | OSError (path : string).

Inductive result (A : Type) : Type :=
  | Ok (a : A)
  | Err (e : exn).
Arguments Ok {A} a.
Arguments Err {A} e.

#[global] Instance result_ret : MRet result := λ A a, Ok a.
#[global] Instance result_bind : MBind result := λ A B f r,
  match r with Ok a => f a | Err e => Err e end.
#[global] Instance result_fmap : FMap result := λ A B f r,
  match r with Ok a => Ok (f a) | Err e => Err e end.

Definition is_Ok {A} (r : result A) : Prop := ∃ a, r = Ok a.

#[global] Instance is_Ok_dec {A} (r : result A) : Decision (is_Ok r).
Proof.
  refine (match r with Ok a => left _ | Err e => right _ end).
  - by exists a.
  - by intros [a ?].
Defined.

(** ** The key patterns [SERIES_SOURCE] and [SERIES_OUTPUT] *)

Module Regex.

Definition newline : Ascii.ascii := "010"%char.
Definition underscore : Ascii.ascii := "_"%char.

(** [$] without the MULTILINE flag: at the end of the string, or just
    before a newline that ends the string. *)
Definition dollar (s : string) : bool :=
  match s with
  | EmptyString => true
  | String c EmptyString => Ascii.eqb c newline
  | _ => false
  end.

(** What follows [s_] in [SERIES_SOURCE]: group 1, a greedy repetition
    of the class "any character but the underscore", and then [$].  The
    pattern is run on [s] by backtracking: the repetition first tries to
    take one more character and, when the rest of the pattern then fails,
    gives it back.  The result is the text of group 1. *)
Fixpoint class_star_dollar (s : string) : option string :=
  match s with
  | EmptyString => Some EmptyString
  | String c s' =>
      if Ascii.eqb c underscore
      then (if dollar s then Some EmptyString else None)
      else match class_star_dollar s' with
           | Some g => Some (String c g)
           | None => if dollar s then Some EmptyString else None
           end
  end.

(** What follows [s_] in [SERIES_OUTPUT]: group 1, a greedy repetition
    of the dot, and then the literal [_out].  The dot takes any character
    but the newline, and nothing anchors the end of the key. *)
Fixpoint dot_star_out (s : string) : option string :=
  match s with
  | EmptyString => None
  | String c s' =>
      if Ascii.eqb c newline
      then (if String.prefix "_out" s then Some EmptyString else None)
      else match dot_star_out s' with
           | Some g => Some (String c g)
           | None => if String.prefix "_out" s then Some EmptyString else None
           end
  end.

(** [re.match] anchors at the start of the key: the literal [s_]. *)
Definition after_s_ (k : string) : option string :=
  match k with
  | String "s" (String "_" rest) => Some rest
  | _ => None
  end.

End Regex.

(** [SERIES_SOURCE.match(k)]: [None] when the key does not match, the text
    of group 1 otherwise. *)
Definition SERIES_SOURCE_match (k : string) : option string :=
  Regex.after_s_ k ≫= Regex.class_star_dollar.

(** [SERIES_OUTPUT.match(k)], in the same way. *)
Definition SERIES_OUTPUT_match (k : string) : option string :=
  Regex.after_s_ k ≫= Regex.dot_star_out.

(** A dictionary display or comprehension over a sequence of pairs: a key
    met again overwrites the earlier entry. *)
Definition dict_of_pairs {V} (l : list (string * V)) : gmap string V :=
  foldl (λ acc kv, <[kv.1 := kv.2]> acc) ∅ l.

(** [_get_series_paths(kwargs)] *)
Definition _get_series_paths (kwargs : gmap string string) : gmap string string :=
  let keys := filter (λ k, is_Some (SERIES_SOURCE_match k)) (map_to_list kwargs).*1 in
  let names := (λ k, default "" (SERIES_SOURCE_match k)) <$> keys in
  dict_of_pairs ((λ nk, (nk.1, kwargs !!! nk.2)) <$> zip names keys).

(** [_get_series_outputs(kwargs)] *)
Definition _get_series_outputs (kwargs : gmap string string) : gmap string string :=
  dict_of_pairs
    (omap (λ kv, (λ g, (g, kv.2)) <$> SERIES_OUTPUT_match kv.1) (map_to_list kwargs)).

(** [_get_name_from_paths(series_paths)] *)
Definition _get_name_from_paths (series_paths : gmap string string) : string :=
  foldl (λ name kp, name +:+ "-" +:+ kp.2) "dataset" (map_to_list series_paths).


(** ** Values held by a series *)

Section values.
Context {Item : Type}.

(** What a dataset may hold under a series name.  The class documents
    "a list of strings or a numpy array"; [LazyDataset] stores [None],
    [shuffle] stores tuples, and callers may pass any other object.  An
    iterable is given by the items it yields. *)
Inductive series_value : Type :=
  | VList (items : list Item)
  | VArray (rows : list Item)        (* an ndarray with at least one axis *)
  | VArray0                          (* a 0-dimensional ndarray *)
  | VTuple (items : list Item)
  | VGenerator (items : list Item)   (* a generator that has not run yet *)
  | VNone.

(** [isinstance(v, list) or isinstance(v, np.ndarray)] *)
Definition is_list_or_array (v : series_value) : bool :=
  match v with
  | VList _ | VArray _ | VArray0 => true
  | _ => false
  end.

(** Iterating a value to its end, as [list(v)] and [zip] do. *)
Definition py_list (v : series_value) : result (list Item) :=
  match v with
  | VList l | VArray l | VTuple l | VGenerator l => Ok l
  | VArray0 => Err (TypeError "iteration over a 0-d array")
  | VNone => Err (TypeError "'NoneType' object is not iterable")
  end.

(** [mapM] of the [result] monad with its equations at hand. *)
Fixpoint result_mapM {A B} (f : A → result B) (l : list A) : result (list B) :=
  match l with
  | [] => Ok []
  | x :: l' =>
      match f x with
      | Err e => Err e
      | Ok y => match result_mapM f l' with
                | Err e => Err e
                | Ok k => Ok (y :: k)
                end
      end
  end.

(** ** Builtins: [zip] with a starred argument, [random.shuffle] *)

(** One step of [zip]: the next item of every iterator, or nothing as soon
    as one of them is exhausted. *)
Definition heads {A} (cols : list (list A)) : option (list A) :=
  mapM head cols.

Fixpoint zip_rows {A} (n : nat) (cols : list (list A)) : list (list A) :=
  match n with
  | 0 => []
  | S n' =>
      match heads cols with
      | None => []
      | Some row => row :: zip_rows n' (tail <$> cols)
      end
  end.

(** [list(zip( *cols ))]: the tuples of items at equal positions, up to the
    end of the shortest argument; no tuple at all without arguments.  The
    length of the first argument bounds the number of steps. *)
Definition zip_star {A} (cols : list (list A)) : list (list A) :=
  match cols with
  | [] => []
  | c :: _ => zip_rows (length c) cols
  end.

(** [x[i], x[j] = x[j], x[i]] on positions within the list. *)
Definition swap {A} (i j : nat) (x : list A) : list A :=
  match x !! i, x !! j with
  | Some a, Some b => <[j := a]> (<[i := b]> x)
  | _, _ => x
  end.

(** The loop of [random.shuffle]:
    [for i in reversed(range(1, len(x))): j = randbelow(i+1); swap i j].
    The generator is given by its successive raw draws; [randbelow(n)]
    reduces a draw below [n], and a missing draw counts as 0. *)
Fixpoint shuffle_loop {A} (i : nat) (draws : list nat) (x : list A) : list A :=
  match i with
  | 0 => x
  | S i' => shuffle_loop i' (tail draws) (swap i (hd 0 draws `mod` S i) x)
  end.

Definition random_shuffle {A} (draws : list nat) (x : list A) : list A :=
  shuffle_loop (length x - 1) draws x.

(** ** Files and generators *)

(** What the module sees of the file system: the MIME type that
    [magic.from_file] detects, the lines that [PlainTextFileReader(path).read()]
    yields, and the array that [np.load] decodes.  Each is fixed as long as
    the files do not change. *)
Record filesystem : Type := {
  magic_from_file : string → result string;
  reader_read : string → list Item;
  np_load : string → result series_value;
}.

(** A run of a generator body to its end: the items it yields, then its
    [return] value or the exception that leaves it. *)
Record gen_trace (Y R : Type) : Type := {
  yielded : list Y;
  finish : result R;
}.
Arguments yielded {Y R} _.
Arguments finish {Y R} _.

(** [list(gen)] *)
Definition list_of_gen {Y R} (t : gen_trace Y R) : result (list Y) :=
  match finish t with
  | Ok _ => Ok (yielded t)
  | Err e => Err e
  end.

(** [create_dataset_series(path, preprocess)].  The body contains [yield],
    so the function is a generator function: its [return np.load(path)]
    ends the iteration with that value and yields nothing. *)
Definition create_dataset_series (fs : filesystem) (path : string)
    (preprocess : Item → Item) : gen_trace Item (option series_value) :=
  match magic_from_file fs path with
  | Err e => {| yielded := []; finish := Err e |}
  | Ok file_type =>
      if String.prefix "text/" file_type then
        {| yielded := preprocess <$> reader_read fs path; finish := Ok None |}
      else if String.eqb file_type "application/octet-stream" then
        {| yielded := []; finish := Some <$> np_load fs path |}
      else
        {| yielded := [];
           finish := Err (Exception ("Unsupported data type: " +:+ file_type
                                     +:+ ", file " +:+ path)) |}
  end.

(** Generator objects live in a heap, a list, and are named by their
    position in it.  A new object has not started its body; the body runs against the
    files as they are at the first [next]. *)
Inductive gen_obj : Type :=
  | GenCreated (path : string) (preprocess : Item → Item)
  | GenSuspended (pending : list Item) (fin : result (option series_value))
  | GenClosed.

Inductive next_outcome : Type :=
  | Yielded (item : Item)
  | StopIteration
  | Raised (e : exn).

Definition resume (pending : list Item) (fin : result (option series_value))
    : next_outcome * gen_obj :=
  match pending with
  | item :: rest => (Yielded item, GenSuspended rest fin)
  | [] => (match fin with Ok _ => StopIteration | Err e => Raised e end, GenClosed)
  end.

Definition gen_next (fs : filesystem) (g : gen_obj) : next_outcome * gen_obj :=
  match g with
  | GenCreated path preprocess =>
      let t := create_dataset_series fs path preprocess in
      resume (yielded t) (finish t)
  | GenSuspended pending fin => resume pending fin
  | GenClosed => (StopIteration, GenClosed)
  end.

(** The rest of a generator object as one run. *)
Definition gen_rest (fs : filesystem) (g : gen_obj) : gen_trace Item (option series_value) :=
  match g with
  | GenCreated path preprocess => create_dataset_series fs path preprocess
  | GenSuspended pending fin => {| yielded := pending; finish := fin |}
  | GenClosed => {| yielded := []; finish := Ok None |}
  end.

(** [next(h)] on the object at [h]; the other objects are left alone. *)
Definition heap_next (fs : filesystem) (h : nat) (hp : list gen_obj)
    : option next_outcome * list gen_obj :=
  match hp !! h with
  | None => (None, hp)
  | Some g => let '(o, g') := gen_next fs g in (Some o, <[h := g']> hp)
  end.

(** [list(h)]: the object is run to its end and left closed. *)
Definition heap_list (fs : filesystem) (h : nat) (hp : list gen_obj)
    : option (result (list Item)) * list gen_obj :=
  match hp !! h with
  | None => (None, hp)
  | Some g => (Some (list_of_gen (gen_rest fs g)), <[h := GenClosed]> hp)
  end.

(** [n] calls of [next(h)] in a row. *)
Fixpoint heap_nexts (fs : filesystem) (h : nat) (n : nat) (hp : list gen_obj)
    : list gen_obj :=
  match n with
  | 0 => hp
  | S n' => heap_nexts fs h n' (heap_next fs h hp).2
  end.

End values.
Arguments yielded {Y R} _.
Arguments finish {Y R} _.
Arguments series_value : clear implicits.
Arguments filesystem : clear implicits.
Arguments gen_obj : clear implicits.
Arguments next_outcome : clear implicits.

(** The heap of generator objects. *)
Abbreviation heap Item := (list (gen_obj Item)) (only parsing).

(** ** The eager [Dataset] *)

Module Dataset.
Section defs.
Context {Item : Type}.

Record t : Type := {
  name : string;
  _series : gmap string (series_value Item);
  series_outputs : gmap string string;
}.

Definition length_error_prefix : string :=
  "Lengths of data series must be equal. Instead: ".

(** [_check_series_lengths(self)].  The lengths are taken of the lists and
    arrays only; the report of the error goes through every series. *)
Definition _check_series_lengths (self : t) : result unit :=
  match result_mapM (λ v, length <$> py_list v)
          (filter (λ v, is_list_or_array v = true) (map_to_list (_series self)).*2) with
  | Err e => Err e
  | Ok lengths =>
      if decide (1 < size (list_to_set lengths : gset nat)) then
        match result_mapM
                (λ sv, (λ l, sv.1 +:+ ": " +:+ pretty (length l)) <$> py_list sv.2)
                (map_to_list (_series self)) with
        | Err e => Err e
        | Ok err_str =>
            Err (Exception (length_error_prefix +:+ String.concat ", " err_str))
        end
      else Ok ()
  end.

(** [Dataset(name, series, series_outputs)] *)
Definition __init__ (name : string) (series : gmap string (series_value Item))
    (series_outputs : gmap string string) : result t :=
  let self := {| name := name; _series := series; series_outputs := series_outputs |} in
  match _check_series_lengths self with
  | Err e => Err e
  | Ok _ => Ok self
  end.

(** [len(self)] *)
Definition __len__ (self : t) : result nat :=
  match (map_to_list (_series self)).*2 with
  | [] => Ok 0
  | first_series :: _ => length <$> py_list first_series
  end.

Definition has_series (self : t) (name : string) : bool :=
  bool_decide (is_Some (_series self !! name)).

(** [get_series(self, name, allow_none)]; the [None] of [dict.get] is the
    value [VNone]. *)
Definition get_series (self : t) (name : string) (allow_none : bool)
    : result (series_value Item) :=
  if allow_none then Ok (default VNone (_series self !! name))
  else match _series self !! name with
       | Some v => Ok v
       | None => Err (KeyError name)
       end.

(** The assignments [self._series[key] = serie] of the last loop of
    [shuffle]. *)
Definition assign_series (series : gmap string (series_value Item))
    (l : list (string * list Item)) : gmap string (series_value Item) :=
  foldl (λ m ks, <[ks.1 := VTuple ks.2]> m) series l.

(** [shuffle(self)], with the draws of the random generator; the dataset
    after the call is returned. *)
Definition shuffle (draws : list nat) (self : t) : result t :=
  let keys := (map_to_list (_series self)).*1 in
  match result_mapM py_list (map_to_list (_series self)).*2 with
  | Err e => Err e
  | Ok cols =>
      let zipped := random_shuffle draws (zip_star cols) in
      Ok {| name := name self;
            _series := assign_series (_series self) (zip keys (zip_star zipped));
            series_outputs := series_outputs self |}
  end.

(** The loop of [batch_serie] over the items that are left, with the
    buffer [buf]; the result is the chunks that are yielded. *)
Fixpoint batch_loop (batch_size : Z) (buf : list Item) (items : list Item)
    : list (list Item) :=
  match items with
  | [] => match buf with [] => [] | _ => [buf] end
  | item :: rest =>
      let buf' := buf ++ [item] in
      if (Z.of_nat (length buf') >=? batch_size)%Z
      then buf' :: batch_loop batch_size [] rest
      else batch_loop batch_size buf' rest
  end.

(** [batch_serie(self, serie_name, batch_size)] *)
Definition batch_serie (self : t) (serie_name : string) (batch_size : Z)
    : gen_trace (list Item) unit :=
  match get_series self serie_name false ≫= py_list with
  | Err e => {| yielded := []; finish := Err e |}
  | Ok items => {| yielded := batch_loop batch_size [] items; finish := Ok () |}
  end.

End defs.
Arguments t : clear implicits.
End Dataset.

(** ** The [LazyDataset] *)

Module LazyDataset.
Section defs.
Context {Item : Type}.

(** The subclass keeps the fields of [Dataset] and adds two. *)
Record t : Type := {
  base : Dataset.t Item;
  series_paths : gmap string string;
  preprocess : Item → Item;
}.

(** [LazyDataset(name, series_paths, series_outputs, preprocess)]: the
    constructor of [Dataset] runs on the placeholders [None]. *)
Definition __init__ (name : string) (series_paths : gmap string string)
    (series_outputs : gmap string string) (preprocess : Item → Item) : result t :=
  match Dataset.__init__ name ((λ _, VNone) <$> series_paths) series_outputs with
  | Err e => Err e
  | Ok b => Ok {| base := b; series_paths := series_paths; preprocess := preprocess |}
  end.

Definition __len__ (self : t) : result nat :=
  Err (Exception "Lazy dataset does not know its size").

Definition has_series (self : t) (name : string) : bool :=
  bool_decide (is_Some (series_paths self !! name)).

(** What [get_series] returns: [None], or a new generator object. *)
Inductive series_ref : Type :=
  | RNone
  | RGenerator (h : nat).

(** [get_series(self, name, allow_none)]: calling the generator function
    allocates a generator object and runs nothing of its body. *)
Definition get_series (self : t) (name : string) (allow_none : bool)
    (hp : heap Item) : result series_ref * heap Item :=
  match series_paths self !! name with
  | None => if allow_none then (Ok RNone, hp) else (Err (KeyError name), hp)
  | Some path =>
      (Ok (RGenerator (length hp)), hp ++ [GenCreated path (preprocess self)])
  end.

(** [shuffle(self)] is [pass]. *)
Definition shuffle (self : t) : t := self.

End defs.
Arguments t : clear implicits.
End LazyDataset.

(** ** [load_dataset_from_files] *)

Section load.
Context {Item : Type}.

Inductive loaded : Type :=
  | Eager (d : Dataset.t Item)
  | Lazy (d : LazyDataset.t Item).

(** [load_dataset_from_files(name, lazy, preprocessor, **kwargs)] *)
Definition load_dataset_from_files (fs : filesystem Item) (name : option string)
    (lazy : bool) (preprocessor : Item → Item) (kwargs : gmap string string)
    : result loaded :=
  let series_paths := _get_series_paths kwargs in
  let series_outputs := _get_series_outputs kwargs in
  if decide (size series_paths = 0) then
    Err (Exception "No input files are provided.")
  else
    let name := default (_get_name_from_paths series_paths) name in
    if lazy then
      Lazy <$> LazyDataset.__init__ name series_paths series_outputs preprocessor
    else
      match result_mapM
              (λ kp, (λ l, (kp.1, VList l)) <$>
                       list_of_gen (create_dataset_series fs kp.2 preprocessor))
              (map_to_list series_paths) with
      | Err e => Err e
      | Ok series =>
          match Dataset.__init__ name (dict_of_pairs series) series_outputs with
          | Err e => Err e
          | Ok dataset =>
              match Dataset.__len__ dataset with
              | Err e => Err e
              | Ok _ => Ok (Eager dataset)
              end
          end
      end.

End load.
Arguments loaded : clear implicits.

(** ** The error kinds of the specification, as the code raises them *)

Definition NoInputSeries : exn := Exception "No input files are provided.".
Definition SizeUnknown : exn := Exception "Lazy dataset does not know its size".
Definition LengthMismatch (report : string) : exn :=
  Exception (Dataset.length_error_prefix +:+ report).
Definition MissingSeries (name : string) : exn := KeyError name.

(** The report of a length mismatch: every series with its length. *)
Definition length_report (l : list (string * nat)) : string :=
  String.concat ", " ((λ sn, sn.1 +:+ ": " +:+ pretty sn.2) <$> l).

(** The number of chunks that hold [n] items, [k] at a time: the quotient
    rounded up. *)
Definition ceil_div (n k : Z) : Z := ((n + k - 1) / k)%Z.

(** Whether the character [c] occurs in [s]. *)
Fixpoint contains (c : Ascii.ascii) (s : string) : bool :=
  match s with
  | EmptyString => false
  | String c' s' => Ascii.eqb c' c || contains c s'
  end.

Section vocabulary.
Context {Item : Type}.
Implicit Types (v : series_value Item) (series : gmap string (series_value Item)).

(** A value that can be iterated. *)
Definition iterable v : Prop := is_Ok (py_list v).

#[global] Instance iterable_dec v : Decision (iterable v).
Proof. unfold iterable. apply _. Defined.

(** The items of an iterable value, none for a value that is not iterable. *)
Definition series_items v : list Item :=
  match py_list v with Ok l => l | Err _ => [] end.

(** The length of an iterable value, 0 for a value that is not iterable. *)
Definition series_length v : nat :=
  match py_list v with Ok l => length l | Err _ => 0 end.

(** The values whose lengths [_check_series_lengths] compares. *)
Definition checked series : list (series_value Item) :=
  filter (λ v, is_list_or_array v = true) (map_to_list series).*2.

End vocabulary.

(** ** Sample inputs *)

Module Sample.

(** A text file of three lines, an array file of two records and an
    image. *)
Definition fs : filesystem string := {|
  magic_from_file p :=
    if String.eqb p "train.txt" then Ok "text/plain"
    else if String.eqb p "feats.npy" then Ok "application/octet-stream"
    else if String.eqb p "logo.png" then Ok "image/png"
    else Err (OSError p);
  reader_read p := if String.eqb p "train.txt" then ["a b"; "c d"; "e"] else [];
  np_load p :=
    if String.eqb p "feats.npy" then Ok (VArray ["0.1 0.2"; "0.3 0.4"])
    else Err (OSError p);
|}.

Definition aligned : Dataset.t string := {|
  Dataset.name := "t";
  Dataset._series :=
    {[ "src" := VList ["a"; "b"; "c"]; "tgt" := VList ["x"; "y"; "z"] ]};
  Dataset.series_outputs := ∅;
|}.

Definition five : Dataset.t nat := {|
  Dataset.name := "five";
  Dataset._series := {[ "src" := VList [1; 2; 3; 4; 5] ]};
  Dataset.series_outputs := ∅;
|}.

(** One list among values of other kinds. *)
Definition mixed : gmap string (series_value nat) :=
  {[ "src" := VList [1; 2; 3]; "raw" := VGenerator [7; 8]; "none" := VNone ]}.

(** Lists of lengths 3 and 5. *)
Definition unequal : gmap string (series_value nat) :=
  {[ "a" := VList [1; 2; 3]; "b" := VList [1; 2; 3; 4; 5] ]}.

(** The same lists next to a [None]. *)
Definition unequal_and_none : gmap string (series_value nat) :=
  {[ "a" := VList [1; 2; 3]; "b" := VList [1; 2; 3; 4; 5]; "c" := VNone ]}.

Definition lazy_train : LazyDataset.t string := {|
  LazyDataset.base := {|
    Dataset.name := "lazy";
    Dataset._series := {[ "src" := VNone ]};
    Dataset.series_outputs := ∅ |};
  LazyDataset.series_paths := {[ "src" := "train.txt" ]};
  LazyDataset.preprocess := id;
|}.

End Sample.

(** ** [Dataset.batch_dataset] *)

Section batch_dataset.
Context {Item : Type}.

(** One step of [zip] over running generators: the iterators are advanced
    in order; the first one that is exhausted ends the zip, and the first
    one that raises fails it, before the later ones are touched. *)
Inductive zip_outcome (Y R : Type) : Type :=
  | ZipRow (row : list Y) (rest : list (gen_trace Y R))
  | ZipStop
  | ZipRaise (e : exn).
Arguments ZipRow {Y R} row rest.
Arguments ZipStop {Y R}.
Arguments ZipRaise {Y R} e.

Fixpoint zip_next {Y R} (ts : list (gen_trace Y R)) : zip_outcome Y R :=
  match ts with
  | [] => ZipRow [] []
  | t :: ts' =>
      match yielded t with
      | [] => match finish t with Ok _ => ZipStop | Err e => ZipRaise e end
      | y :: ys =>
          match zip_next ts' with
          | ZipRow row rest =>
              ZipRow (y :: row) ({| yielded := ys; finish := finish t |} :: rest)
          | ZipStop => ZipStop
          | ZipRaise e => ZipRaise e
          end
      end
  end.

Fixpoint zip_loop {Y R} (n : nat) (ts : list (gen_trace Y R)) : gen_trace (list Y) unit :=
  match n with
  | 0 => {| yielded := []; finish := Ok () |}
  | S n' =>
      match zip_next ts with
      | ZipStop => {| yielded := []; finish := Ok () |}
      | ZipRaise e => {| yielded := []; finish := Err e |}
      | ZipRow row rest =>
          let t := zip_loop n' rest in
          {| yielded := row :: yielded t; finish := finish t |}
      end
  end.

(** [zip( *ts )] over generators.  Without arguments nothing is yielded;
    otherwise the first generator ends the zip after its last item at the
    latest, which bounds the number of steps. *)
Definition zip_traces {Y R} (ts : list (gen_trace Y R)) : gen_trace (list Y) unit :=
  match ts with
  | [] => {| yielded := []; finish := Ok () |}
  | t :: _ => zip_loop (S (length (yielded t))) ts
  end.

(** The loop of [batch_dataset] over the tuples of chunks that the zip
    yields: each tuple becomes a dataset, and a constructor that raises ends
    the generator. *)
Fixpoint batch_datasets (name : string) (keys : list string) (batch_index : nat)
    (rows : list (list (list Item))) (fin : result unit)
    : gen_trace (Dataset.t Item) unit :=
  match rows with
  | [] => {| yielded := []; finish := fin |}
  | next_batches :: rest =>
      match Dataset.__init__ (name +:+ "-batch-" +:+ pretty batch_index)
              (dict_of_pairs (zip keys (VList <$> next_batches))) ∅ with
      | Err e => {| yielded := []; finish := Err e |}
      | Ok dataset =>
          let t := batch_datasets name keys (S batch_index) rest fin in
          {| yielded := dataset :: yielded t; finish := finish t |}
      end
  end.

(** [batch_dataset(self, batch_size)] *)
Definition batch_dataset (self : Dataset.t Item) (batch_size : Z)
    : gen_trace (Dataset.t Item) unit :=
  let keys := (map_to_list (Dataset._series self)).*1 in
  let batched_series := (λ key, Dataset.batch_serie self key batch_size) <$> keys in
  let z := zip_traces batched_series in
  batch_datasets (Dataset.name self) keys 0 (yielded z) (finish z).

End batch_dataset.
Arguments ZipRow {Y R} row rest.
Arguments ZipStop {Y R}.
Arguments ZipRaise {Y R} e.

(** ** Batching a lazy series *)

Section lazy_batching.
Context {Item : Type}.

(** The chunks that the loop of [batch_serie] has yielded when the
    iteration over the series raises after [items]: the buffer that is not
    full is never yielded. *)
Fixpoint batch_loop_interrupted (batch_size : Z) (buf : list Item) (items : list Item)
    : list (list Item) :=
  match items with
  | [] => []
  | item :: rest =>
      let buf' := buf ++ [item] in
      if (Z.of_nat (length buf') >=? batch_size)%Z
      then buf' :: batch_loop_interrupted batch_size [] rest
      else batch_loop_interrupted batch_size buf' rest
  end.

(** [batch_serie] as [LazyDataset] inherits it: [self.get_series] is the
    method of the subclass, so the loop runs over a new generator object,
    which it leaves closed. *)
Definition lazy_batch_serie (fs : filesystem Item) (self : LazyDataset.t Item)
    (serie_name : string) (batch_size : Z) (hp : heap Item)
    : gen_trace (list Item) unit * heap Item :=
  match LazyDataset.get_series self serie_name false hp with
  | (Err e, hp') => ({| yielded := []; finish := Err e |}, hp')
  | (Ok LazyDataset.RNone, hp') =>
      ({| yielded := [];
          finish := Err (TypeError "'NoneType' object is not iterable") |}, hp')
  | (Ok (LazyDataset.RGenerator h), hp') =>
      match hp' !! h with
      | None => ({| yielded := []; finish := Ok () |}, hp')
      | Some g =>
          let t := gen_rest fs g in
          (match finish t with
           | Ok _ => {| yielded := Dataset.batch_loop batch_size [] (yielded t);
                        finish := Ok () |}
           | Err e => {| yielded := batch_loop_interrupted batch_size [] (yielded t);
                         finish := Err e |}
           end, <[h := GenClosed]> hp')
      end
  end.

End lazy_batching.

(** ** [RawRNNEncoder.feed_dict] *)

Module RawRNNEncoder.
Section defs.
Context {Row Meta : Type}.

(** A numpy array with at least one axis: its rows along the first axis,
    and what [np.zeros] needs to make a row of zeros like them, the rest of
    the shape and the dtype. *)
Record ndarray : Type := {
  meta : Meta;
  rows : list Row;
}.

(** A row of [np.zeros] for the given rest of the shape and dtype. *)
Variable zero_row : Meta → Row.

(** The fields of the encoder that [feed_dict] reads. *)
Record t : Type := {
  data_id : string;
  max_input_len : option Z;
}.

(** The feed dictionary: its keys are the three placeholders of the
    encoder. *)
Record FeedDict : Type := {
  train_mode : bool;
  inputs : list ndarray;
  _input_lengths : list Z;
}.

(** What [feed_dict] can raise: the exceptions of the dataset, and the
    [ValueError] of [max] and of [np.zeros]. *)
Inductive feed_exn : Type :=
  | DatasetError (e : exn)
  | ValueError (msg : string).

Inductive feed_result : Type :=
  | Fed (fd : FeedDict)
  | FeedRaised (e : feed_exn).

(** [x.shape[0]] *)
Definition shape0 (x : ndarray) : Z := Z.of_nat (length (rows x)).

(** [max] of a sequence; it has none when the sequence is empty. *)
Definition py_max (l : list Z) : option Z :=
  match l with
  | [] => None
  | a :: l' => Some (foldl Z.max a l')
  end.

(** The body of the loop: [x_padded] is made of [max_len] rows of zeros,
    and its first [length] rows are overwritten with those of [x]. *)
Definition pad (max_len : Z) (x : ndarray) : ndarray * Z :=
  let length := Z.min max_len (shape0 x) in
  let zeros := replicate (Z.to_nat max_len) (zero_row (meta x)) in
  ({| meta := meta x;
      rows := take (Z.to_nat length) (rows x) ++ drop (Z.to_nat length) zeros |},
   length).

(** [feed_dict(self, dataset, train)] on an eager dataset of arrays. *)
Definition feed_dict (self : t) (dataset : Dataset.t ndarray) (train : bool)
    : feed_result :=
  match Dataset.get_series dataset (data_id self) false ≫= py_list with
  | Err e => FeedRaised (DatasetError e)
  | Ok series =>
      match py_max (shape0 <$> series) with
      | None => FeedRaised (ValueError "max() arg is an empty sequence")
      | Some longest =>
          let max_len :=
            match max_input_len self with
            | Some cap => Z.min cap longest
            | None => longest
            end in
          if (max_len <? 0)%Z then
            FeedRaised (ValueError "negative dimensions are not allowed")
          else
            Fed {| train_mode := train;
                   inputs := (λ x, (pad max_len x).1) <$> series;
                   _input_lengths := (λ x, (pad max_len x).2) <$> series |}
      end
  end.

End defs.
Arguments ndarray : clear implicits.
Arguments FeedDict : clear implicits.
Arguments feed_result : clear implicits.
End RawRNNEncoder.

(** ** Vocabulary of the statements on batches and files *)

Section batch_vocabulary.
Context {Item : Type}.

(** A generator after one step of a zip over it. *)
Definition advanced {Y} (t : gen_trace Y unit) : gen_trace Y unit :=
  {| yielded := tail (yielded t); finish := finish t |}.

(** The slice that chunk number [i] of size [n] takes from a series. *)
Definition slice (n i : nat) (v : series_value Item) : series_value Item :=
  VList (take n (drop (i * n) (series_items v))).

(** The dataset that [batch_dataset] makes of the chunks number [i]. *)
Definition batch_of (self : Dataset.t Item) (n i : nat) : Dataset.t Item :=
  {| Dataset.name := Dataset.name self +:+ "-batch-" +:+ pretty i;
     Dataset._series := slice n i <$> Dataset._series self;
     Dataset.series_outputs := ∅ |}.

(** Whether the detected type of a file starts with [text/]. *)
Definition is_text (fs : filesystem Item) (path : string) : bool :=
  match magic_from_file fs path with
  | Ok file_type => String.prefix "text/" file_type
  | Err _ => false
  end.

End batch_vocabulary.

(** ** More sample inputs *)

Module Inputs.

(** Two text files of three lines each, as keyword arguments. *)
Definition fs : filesystem string := {|
  magic_from_file p :=
    if String.eqb p "train.src" then Ok "text/plain"
    else if String.eqb p "train.tgt" then Ok "text/x-tex"
    else if String.eqb p "logo.png" then Ok "image/png"
    else Err (OSError p);
  reader_read p :=
    if String.eqb p "train.src" then ["a b"; "c d"; "e"]
    else if String.eqb p "train.tgt" then ["x"; "y"; "z"]
    else [];
  np_load p := Err (OSError p);
|}.

Definition kwargs : gmap string string :=
  {[ "s_source" := "train.src"; "s_target" := "train.tgt";
     "s_target_out" := "out.txt" ]}.

(** Three arrays of 2, 3 and 1 rows. *)
Definition arrays : Dataset.t (RawRNNEncoder.ndarray nat unit) := {|
  Dataset.name := "feats";
  Dataset._series :=
    {[ "x" := VList [ {| RawRNNEncoder.meta := (); RawRNNEncoder.rows := [1; 2] |};
                      {| RawRNNEncoder.meta := (); RawRNNEncoder.rows := [3; 4; 5] |};
                      {| RawRNNEncoder.meta := (); RawRNNEncoder.rows := [6] |} ] ]};
  Dataset.series_outputs := ∅;
|}.

Definition encoder (cap : option Z) : RawRNNEncoder.t :=
  {| RawRNNEncoder.data_id := "x"; RawRNNEncoder.max_input_len := cap |}.

(** Tuples of 4 and of 2 items, which no check compares. *)
Definition ragged : Dataset.t nat := {|
  Dataset.name := "r";
  Dataset._series := {[ "a" := VTuple [1; 2; 3; 4]; "b" := VTuple [5; 6] ]};
  Dataset.series_outputs := ∅;
|}.


End Inputs.

(** * Properties *)

(** ** The key patterns *)

Lemma dollar_cons_cons c c' s : Regex.dollar (String c (String c' s)) = false.
Proof. reflexivity. Qed.

Lemma class_star_dollar_clean s :
  contains "_" s = false → Regex.class_star_dollar s = Some s.
Proof.
  induction s as [|c s IH]; simpl; [done|].
  intros [Hc Hs]%orb_false_elim.
  unfold Regex.underscore. rewrite Hc, (IH Hs). done.
Qed.

Lemma class_star_dollar_dirty s :
  contains "_" s = true → Regex.class_star_dollar s = None.
Proof.
  induction s as [|c s IH]; simpl; [done|].
  unfold Regex.underscore.
  destruct (Ascii.eqb c "_") eqn:Hc; simpl.
  - intros _. apply Ascii.eqb_eq in Hc as ->. by destruct s.
  - intros Hs. rewrite (IH Hs). destruct s; [done|].
    by destruct (Ascii.eqb c Regex.newline).
Qed.

Lemma after_s__Some k rest : Regex.after_s_ k = Some rest ↔ k = "s_" +:+ rest.
Proof.
  split.
  - destruct k as [|a [|b k]]; try done; simpl.
    + by repeat case_match.
    + repeat case_match; try done. by intros [= ->].
  - by intros ->.
Qed.

(** The input pattern accepts exactly the keys [s_<series>] whose series
    name has no underscore, and group 1 is that name. *)
Lemma SERIES_SOURCE_match_Some k series :
  SERIES_SOURCE_match k = Some series ↔
  k = "s_" +:+ series ∧ contains "_" series = false.
Proof.
  unfold SERIES_SOURCE_match. split.
  - destruct (Regex.after_s_ k) as [rest|] eqn:Hk; [|done]; simpl.
    apply after_s__Some in Hk as ->.
    destruct (contains "_" rest) eqn:Hu.
    + by rewrite class_star_dollar_dirty.
    + rewrite class_star_dollar_clean by done. by intros [= ->].
  - intros [-> Hu]. simpl. by apply class_star_dollar_clean.
Qed.

Lemma dot_star_out_suffix series :
  contains Regex.newline series = false →
  contains "_" series = false →
  Regex.dot_star_out (series +:+ "_out") = Some series.
Proof.
  induction series as [|c s IH]; [done|].
  intros Hn Hu. simpl in Hn, Hu.
  apply orb_false_elim in Hn as [Hc Hs]. apply orb_false_elim in Hu as [_ Hu].
  change (String c s +:+ "_out") with (String c (s +:+ "_out")).
  cbn [Regex.dot_star_out]. rewrite Hc, (IH Hs Hu). done.
Qed.

(** The output pattern accepts the keys [s_<series>_out]. *)
Lemma SERIES_OUTPUT_match_out series :
  contains Regex.newline series = false →
  contains "_" series = false →
  SERIES_OUTPUT_match ("s_" +:+ series +:+ "_out") = Some series.
Proof. intros. unfold SERIES_OUTPUT_match; simpl. by apply dot_star_out_suffix. Qed.

Lemma contains_app c s1 s2 :
  contains c (s1 +:+ s2) = contains c s1 || contains c s2.
Proof. induction s1 as [|a s1 IH]; simpl; [done|]. by rewrite IH, orb_assoc. Qed.

(** An output key is no input key. *)
Lemma SERIES_SOURCE_match_out series :
  SERIES_SOURCE_match ("s_" +:+ series +:+ "_out") = None.
Proof.
  unfold SERIES_SOURCE_match; simpl. apply class_star_dollar_dirty.
  rewrite !contains_app. apply orb_true_r.
Qed.

Lemma dot_star_out_clean s : contains "_" s = false → Regex.dot_star_out s = None.
Proof.
  induction s as [|c s IH]; [done|].
  intros H. simpl in H. apply orb_false_elim in H as [Hc Hs].
  cbn [Regex.dot_star_out]. rewrite (IH Hs).
  assert (String.prefix "_out" (String c s) = false) as ->.
  { cbn [String.prefix]. destruct (ascii_dec "_" c) as [<-|]; done. }
  by destruct (Ascii.eqb c Regex.newline).
Qed.

(** An input key is no output key. *)
Lemma SERIES_OUTPUT_match_source series :
  contains "_" series = false → SERIES_OUTPUT_match ("s_" +:+ series) = None.
Proof. intros. unfold SERIES_OUTPUT_match; simpl. by apply dot_star_out_clean. Qed.

(** ** Dictionaries built by successive assignments *)

Lemma foldl_insert_lookup {V W} (f : W → V) (m : gmap string V)
    (l : list (string * W)) k v :
  NoDup l.*1 →
  (foldl (λ acc kv, <[kv.1 := f kv.2]> acc) m l) !! k = Some v ↔
  (∃ w, (k, w) ∈ l ∧ v = f w) ∨ ((k ∉ l.*1) ∧ m !! k = Some v).
Proof.
  revert m. induction l as [|[k0 w0] l IH]; intros m Hnd; simpl.
  { split; [intros; right; split; [apply not_elem_of_nil|done]|].
    intros [(w & []%elem_of_nil & _)|[_ ?]]; done. }
  apply NoDup_cons in Hnd as [Hk0 Hnd]. rewrite (IH _ Hnd). clear IH.
  destruct (decide (k = k0)) as [->|Hne].
  - rewrite lookup_insert_eq. split.
    + intros [(w & Hw & ->)|[_ [= <-]]].
      * left. exists w. split; [by right|done].
      * left. exists w0. split; [by left|done].
    + intros [(w & Hw & ->)|[Hn _]].
      * apply elem_of_cons in Hw as [[= <-]|Hw]; [by right|].
        left. by exists w.
      * exfalso. apply Hn. by left.
  - rewrite lookup_insert_ne by done. split.
    + intros [(w & Hw & ->)|[Hn Hm]].
      * left. exists w. split; [by right|done].
      * right. split; [|done]. intros [?|?]%elem_of_cons; done.
    + intros [(w & Hw & ->)|[Hn Hm]].
      * apply elem_of_cons in Hw as [[= ? ?]|Hw]; [done|]. left. by exists w.
      * right. split; [|done]. intros ?. apply Hn. by right.
Qed.

Lemma dict_of_pairs_lookup {V} (l : list (string * V)) k v :
  NoDup l.*1 → dict_of_pairs l !! k = Some v ↔ (k, v) ∈ l.
Proof.
  intros Hnd. unfold dict_of_pairs.
  rewrite (foldl_insert_lookup id ∅ l k v Hnd). rewrite lookup_empty. split.
  - intros [(w & Hw & ->)|[_ ?]]; done.
  - intros ?. left. by exists v.
Qed.

Lemma fmap_zip_fmap_self {A B C} (f : A → B) (g : B * A → C) (l : list A) :
  g <$> zip (f <$> l) l = (λ x, g (f x, x)) <$> l.
Proof. induction l as [|x l IH]; csimpl; [done|]. by rewrite IH. Qed.

(** The input paths: the series [series] has the path [path] exactly when
    its name has no underscore and the key [s_<series>] is given with that
    path. *)
Lemma _get_series_paths_lookup (kwargs : gmap string string) series path :
  _get_series_paths kwargs !! series = Some path ↔
  contains "_" series = false ∧ kwargs !! ("s_" +:+ series) = Some path.
Proof.
  unfold _get_series_paths. cbv zeta.
  set (keys := filter (λ k, is_Some (SERIES_SOURCE_match k)) (map_to_list kwargs).*1).
  set (f := λ k, default "" (SERIES_SOURCE_match k)).
  assert (Hkeys : ∀ k, k ∈ keys ↔
            is_Some (SERIES_SOURCE_match k) ∧ is_Some (kwargs !! k)).
  { intros k. unfold keys. rewrite list_elem_of_filter, list_elem_of_fmap.
    split.
    - intros [? ([k' v] & -> & Hv%elem_of_map_to_list)]. eauto.
    - intros [? [v Hv]]. split; [done|]. exists (k, v). split; [done|].
      by apply elem_of_map_to_list. }
  assert (Hf : ∀ k, k ∈ keys → k = "s_" +:+ f k ∧ contains "_" (f k) = false).
  { intros k [[n Hn] _]%Hkeys. unfold f. rewrite Hn. simpl.
    by apply SERIES_SOURCE_match_Some. }
  rewrite fmap_zip_fmap_self. simpl.
  rewrite dict_of_pairs_lookup.
  - rewrite list_elem_of_fmap. split.
    + intros (k & [= -> ->] & Hk). destruct (Hf k Hk) as [Hk1 Hk2].
      split; [done|]. rewrite <-Hk1.
      apply Hkeys in Hk as [_ [v Hv]]. by rewrite (lookup_total_correct _ _ _ Hv).
    + intros [Hu Hp]. exists ("s_" +:+ series).
      assert (SERIES_SOURCE_match ("s_" +:+ series) = Some series) as Hm
        by by apply SERIES_SOURCE_match_Some.
      split.
      * unfold f. rewrite Hm. simpl. by rewrite (lookup_total_correct _ _ _ Hp).
      * apply Hkeys. rewrite Hm; eauto.
  - rewrite <-list_fmap_compose.
    apply NoDup_fmap_2_strong.
    + intros k1 k2 Hk1 Hk2 Heq. simpl in Heq.
      destruct (Hf k1 Hk1) as [-> _]. destruct (Hf k2 Hk2) as [E2 _].
      by rewrite Heq.
    + unfold keys. apply NoDup_filter, NoDup_fst_map_to_list.
Qed.

(** No input series at all: no key has the form [s_<series>]. *)
Lemma _get_series_paths_empty (kwargs : gmap string string) :
  _get_series_paths kwargs = ∅ ↔
  ∀ series, contains "_" series = false → kwargs !! ("s_" +:+ series) = None.
Proof.
  split.
  - intros He series Hu. destruct (kwargs !! _) as [p|] eqn:Hp; [|done].
    assert (_get_series_paths kwargs !! series = Some p) as Hl
      by by apply _get_series_paths_lookup.
    by rewrite He in Hl.
  - intros H. apply map_eq. intros series. rewrite lookup_empty.
    destruct (_get_series_paths kwargs !! series) as [p|] eqn:Hp; [|done].
    apply _get_series_paths_lookup in Hp as [Hu Hp]. by rewrite (H _ Hu) in Hp.
Qed.

(** ** Keyword conventions of [load_dataset_from_files] *)

(** C8, at the keyword arguments [{"s_target_outfile": "out.txt"}].  The
    claim has every key that is neither [s_<series>] nor [s_<series>_out]
    ignored.  The key [s_target_outfile] has neither form, and it gives no
    input path, yet [_get_series_outputs] records [out.txt] as the output
    path of the series [target]: the output pattern is not anchored at the
    end of the key, unlike the input pattern. *)
Theorem output_key_pattern_is_not_anchored :
  let kwargs : gmap string string := {[ "s_target_outfile" := "out.txt" ]} in
  (∀ series, "s_target_outfile" ≠ "s_" +:+ series +:+ "_out") ∧
  (∀ series, contains "_" series = false → "s_target_outfile" ≠ "s_" +:+ series) ∧
  _get_series_paths kwargs = ∅ ∧
  SERIES_OUTPUT_match "s_target_outfile" = Some "target" ∧
  _get_series_outputs kwargs = {[ "target" := "out.txt" ]}.
Proof.
  cbv zeta. split_and!.
  - intros series [= H].
    repeat (destruct series as [|? series]; simpl in H;
            [discriminate | try discriminate; injection H as _ H]).
  - intros series Hu [= H]. cbv in H. subst series. discriminate.
  - apply _get_series_paths_empty. intros series Hu.
    apply lookup_singleton_None. intros [= H]. cbv in H. subst series.
    discriminate.
  - reflexivity.
  - vm_compute. reflexivity.
Qed.

(** ** [create_dataset_series] *)

Section series.
Context {Item : Type}.
Implicit Types (fs : filesystem Item) (preprocess : Item → Item).

(** A text file yields its preprocessed lines, in order. *)
Lemma create_dataset_series_text fs path preprocess file_type :
  magic_from_file fs path = Ok file_type →
  String.prefix "text/" file_type = true →
  list_of_gen (create_dataset_series fs path preprocess)
  = Ok (preprocess <$> reader_read fs path).
Proof. intros Hm Hp. unfold create_dataset_series. by rewrite Hm, Hp. Qed.

(** For an array file nothing is yielded: the decoded array only rides on
    the end of the iteration. *)
Lemma create_dataset_series_numeric fs path preprocess :
  magic_from_file fs path = Ok "application/octet-stream" →
  yielded (create_dataset_series fs path preprocess) = [] ∧
  finish (create_dataset_series fs path preprocess) = Some <$> np_load fs path.
Proof. intros Hm. unfold create_dataset_series. by rewrite Hm. Qed.

(** Any other type is refused, with the type and the path in the message. *)
Lemma create_dataset_series_unsupported fs path preprocess file_type :
  magic_from_file fs path = Ok file_type →
  String.prefix "text/" file_type = false →
  file_type ≠ "application/octet-stream" →
  list_of_gen (create_dataset_series fs path preprocess)
  = Err (Exception ("Unsupported data type: " +:+ file_type +:+ ", file " +:+ path)).
Proof.
  intros Hm Hp Hne. unfold create_dataset_series. rewrite Hm, Hp.
  by apply String.eqb_neq in Hne as ->.
Qed.

End series.

(** C1, at the array file [feats.npy] of the sample file system.  The file
    is classified [application/octet-stream] and [np.load] decodes two
    records from it, but the series created from the path is empty, as a
    generator run to its end and in the dataset that
    [load_dataset_from_files] builds: the records never reach the caller. *)
Theorem numeric_series_comes_out_empty :
  magic_from_file Sample.fs "feats.npy" = Ok "application/octet-stream" ∧
  np_load Sample.fs "feats.npy" = Ok (VArray ["0.1 0.2"; "0.3 0.4"]) ∧
  list_of_gen (create_dataset_series Sample.fs "feats.npy" id) = Ok [] ∧
  load_dataset_from_files Sample.fs (Some "d") false id {[ "s_feats" := "feats.npy" ]}
  = Ok (Eager {| Dataset.name := "d";
                 Dataset._series := {[ "feats" := VList [] ]};
                 Dataset.series_outputs := ∅ |}).
Proof. split_and!; vm_compute; reflexivity. Qed.

(** ** Construction without input series *)

(** C2, as stated, fails at [Dataset(name="x", series={})]: the constructor
    accepts the empty mapping and raises nothing. *)
Lemma empty_series_mapping_is_accepted :
  Dataset.__init__ (Item := string) "x" ∅ ∅
  = Ok {| Dataset.name := "x"; Dataset._series := ∅; Dataset.series_outputs := ∅ |} ∧
  Dataset.__init__ (Item := string) "x" ∅ ∅ ≠ Err NoInputSeries.
Proof. split; [vm_compute; reflexivity | vm_compute; discriminate]. Qed.

(** C2, amended.  The constructor of [Dataset] accepts an empty series
    mapping and gives a dataset of size 0; the refusal sits in
    [load_dataset_from_files]: when the keyword arguments give no input
    series it fails with [NoInputSeries], for the eager and for the lazy
    mode, and builds no dataset. *)
Theorem no_input_series_is_refused_by_the_loader {Item : Type}
    (fs : filesystem Item) (name : option string) (lazy : bool)
    (preprocessor : Item → Item) (kwargs : gmap string string)
    (x : string) (outputs : gmap string string) :
  let d : Dataset.t Item :=
    {| Dataset.name := x; Dataset._series := ∅; Dataset.series_outputs := outputs |} in
  Dataset.__init__ x ∅ outputs = Ok d ∧
  Dataset.__len__ d = Ok 0 ∧
  (_get_series_paths kwargs = ∅ →
   load_dataset_from_files fs name lazy preprocessor kwargs = Err NoInputSeries).
Proof.
  cbv zeta. split_and!.
  - unfold Dataset.__init__, Dataset._check_series_lengths. simpl.
    rewrite map_to_list_empty. simpl. rewrite decide_False; [done|].
    vm_compute. lia.
  - unfold Dataset.__len__. simpl. by rewrite map_to_list_empty.
  - intros He. unfold load_dataset_from_files. rewrite He.
    rewrite decide_True; [done|]. apply map_size_empty.
Qed.

Lemma no_input_series_is_refused_by_the_loader_witness :
  _get_series_paths {[ "name" := "x"; "s_target_out" := "out.txt" ]} = ∅ ∧
  load_dataset_from_files Sample.fs None true id
    {[ "name" := "x"; "s_target_out" := "out.txt" ]} = Err NoInputSeries.
Proof.
  split; [vm_compute; reflexivity|].
  apply (no_input_series_is_refused_by_the_loader Sample.fs None true id
           {[ "name" := "x"; "s_target_out" := "out.txt" ]} "x" ∅).
  vm_compute; reflexivity.
Defined.

(** ** The lazy dataset *)

(** C6.  The size of a lazy dataset is never known: [len] raises
    [SizeUnknown] whatever the dataset holds, and returns no number. *)
Theorem lazy_len_always_fails {Item : Type} (d : LazyDataset.t Item) :
  LazyDataset.__len__ d = Err SizeUnknown ∧
  ∀ n : nat, LazyDataset.__len__ d ≠ Ok n.
Proof. split; [reflexivity | intros n; discriminate]. Qed.

(** C9.  [shuffle] on a lazy dataset changes nothing: the dataset after
    the call is the dataset before it, field by field, and each series is
    read as before. *)
Theorem lazy_shuffle_is_a_no_op {Item : Type} (d : LazyDataset.t Item) :
  let d' := LazyDataset.shuffle d in
  d' = d ∧
  Dataset.name (LazyDataset.base d') = Dataset.name (LazyDataset.base d) ∧
  LazyDataset.series_paths d' = LazyDataset.series_paths d ∧
  Dataset.series_outputs (LazyDataset.base d')
    = Dataset.series_outputs (LazyDataset.base d) ∧
  LazyDataset.preprocess d' = LazyDataset.preprocess d ∧
  Dataset._series (LazyDataset.base d') = Dataset._series (LazyDataset.base d) ∧
  ∀ name allow_none hp,
    LazyDataset.get_series d' name allow_none hp
    = LazyDataset.get_series d name allow_none hp.
Proof. cbv zeta. unfold LazyDataset.shuffle. by split_and!. Qed.

(** ** Batching *)

Section batching.
Context {Item : Type}.
Implicit Types (buf items : list Item) (chunks : list (list Item)).

Local Open Scope Z_scope.

Lemma ceil_div_0 k : 0 < k → ceil_div 0 k = 0.
Proof. intros. unfold ceil_div. apply Z.div_small. lia. Qed.

Lemma ceil_div_partial n k : 0 < n → n ≤ k → ceil_div n k = 1.
Proof.
  intros. unfold ceil_div. symmetry. apply (Z.div_unique _ _ 1 (n - 1)); lia.
Qed.

Lemma ceil_div_full n k : 0 < k → 0 ≤ n → ceil_div (k + n) k = 1 + ceil_div n k.
Proof.
  intros. unfold ceil_div.
  replace (k + n + k - 1) with (1 * k + (n + k - 1)) by lia.
  rewrite Z.div_add_l by lia. done.
Qed.

(** What the loop of [batch_serie] yields from a buffer that is not full
    yet: the chunks spell the buffer followed by the items that are left,
    they are as many as needed, none is empty or longer than the batch
    size, and all but the last are full. *)
Lemma batch_loop_spec (k : Z) items buf :
  0 < k → Z.of_nat (length buf) < k →
  let chunks := Dataset.batch_loop k buf items in
  concat chunks = (buf ++ items)%list ∧
  Z.of_nat (length chunks) = ceil_div (Z.of_nat (length buf + length items)) k ∧
  Forall (λ c, 1 ≤ Z.of_nat (length c) ≤ k) chunks ∧
  (∀ (i : nat) c, chunks !! i = Some c → (S i < length chunks)%nat →
                  Z.of_nat (length c) = k).
Proof.
  intros Hk. revert buf. induction items as [|item rest IH]; intros buf Hbuf.
  - destruct buf as [|b buf]; simpl.
    + split_and!; [done| by rewrite ceil_div_0 |constructor|].
      intros i c Hc. by rewrite lookup_nil in Hc.
    + rewrite app_nil_r, Nat.add_0_r. split_and!.
      * done.
      * simpl in Hbuf. rewrite ceil_div_partial; simpl; lia.
      * repeat constructor; simpl in *; lia.
      * intros i c _ Hi. simpl in Hi. lia.
  - cbn [Dataset.batch_loop]. cbv zeta.
    assert (Hlen : Z.of_nat (length (buf ++ [item])) = Z.of_nat (length buf) + 1).
    { rewrite length_app. simpl. lia. }
    destruct (Z.geb_spec (Z.of_nat (length (buf ++ [item]))) k) as [Hge|Hlt].
    + destruct (IH [] ltac:(simpl; lia)) as (Hcat & Hnum & Hall & Hfull).
      split_and!.
      * simpl. rewrite Hcat. simpl. by rewrite <-app_assoc.
      * cbn [length]. rewrite Nat2Z.inj_succ, Hnum. simpl length.
        replace (Z.of_nat (length buf + S (length rest)))
          with (k + Z.of_nat (0 + length rest)) by lia.
        rewrite ceil_div_full by lia. lia.
      * constructor; [lia|done].
      * intros [|i] c Hc Hi; simpl in Hc, Hi.
        -- injection Hc as <-. lia.
        -- apply (Hfull i c Hc). lia.
    + destruct (IH (buf ++ [item])%list ltac:(lia)) as (Hcat & Hnum & Hall & Hfull).
      split_and!.
      * rewrite Hcat. by rewrite <-app_assoc.
      * rewrite Hnum. f_equal. rewrite length_app. simpl. lia.
      * done.
      * done.
Qed.

(** C3.  For a series of [L] items and a batch size [k > 0], [batch_serie]
    runs to its end and yields [ceil(L/k)] chunks; every chunk but the last
    has exactly [k] items, the last has between 1 and [k], no chunk is
    empty, an empty series yields no chunk, and the chunks put end to end
    are the series. *)
Theorem batch_serie_chunks (self : Dataset.t Item) (serie_name : string)
    (k : Z) (v : series_value Item) items :
  Dataset._series self !! serie_name = Some v →
  py_list v = Ok items →
  0 < k →
  let t := Dataset.batch_serie self serie_name k in
  let chunks := yielded t in
  finish t = Ok () ∧
  Z.of_nat (length chunks) = ceil_div (Z.of_nat (length items)) k ∧
  (∀ (i : nat) c, chunks !! i = Some c → (S i < length chunks)%nat →
                  Z.of_nat (length c) = k) ∧
  (∀ c, last chunks = Some c → 1 ≤ Z.of_nat (length c) ≤ k) ∧
  Forall (λ c, c ≠ []) chunks ∧
  (items = [] → chunks = []) ∧
  concat chunks = items.
Proof.
  intros Hv Hitems Hk. cbv zeta.
  unfold Dataset.batch_serie, Dataset.get_series. rewrite Hv. simpl.
  rewrite Hitems. simpl.
  destruct (batch_loop_spec k items [] Hk ltac:(simpl; lia))
    as (Hcat & Hnum & Hall & Hfull).
  split_and!; try done.
  - intros c Hc. apply last_Some in Hc as [chunks' Hc].
    rewrite Hc in Hall. apply Forall_app in Hall as [_ Hall].
    apply Forall_inv in Hall. simpl in Hall. lia.
  - eapply Forall_impl; [exact Hall|]. intros c Hc ->. simpl in Hc. lia.
  - by intros ->.
Qed.

End batching.

Lemma batch_serie_chunks_witness :
  Dataset._series Sample.five !! "src" = Some (VList [1; 2; 3; 4; 5]%nat) ∧
  py_list (VList [1; 2; 3; 4; 5]%nat) = Ok [1; 2; 3; 4; 5]%nat ∧
  (0 < 2)%Z ∧
  yielded (Dataset.batch_serie Sample.five "src" 2)
    = [[1; 2]; [3; 4]; [5]]%nat ∧
  concat (yielded (Dataset.batch_serie Sample.five "src" 2)) = [1; 2; 3; 4; 5]%nat.
Proof.
  split_and!; [reflexivity | reflexivity | lia | reflexivity |].
  apply (batch_serie_chunks Sample.five "src" 2 (VList [1; 2; 3; 4; 5]%nat)
           [1; 2; 3; 4; 5]%nat); [reflexivity | reflexivity | lia].
Defined.

(** ** The check of the lengths *)

Section lengths.
Context {Item : Type}.
Implicit Types (v : series_value Item) (series : gmap string (series_value Item)).

Lemma result_mapM_Ok {A B} (f : A → result B) (g : A → B) (l : list A) :
  Forall (λ x, f x = Ok (g x)) l → result_mapM f l = Ok (g <$> l).
Proof.
  induction 1 as [|x l Hx _ IH]; [done|]. cbn [result_mapM].
  by rewrite Hx, IH.
Qed.

Lemma result_mapM_length {A B} (f : A → result B) (l : list A) k :
  result_mapM f l = Ok k → length k = length l.
Proof.
  revert k. induction l as [|x l IH]; intros k; cbn [result_mapM].
  - by intros [= <-].
  - destruct (f x); [|done]. destruct (result_mapM f l); [|done].
    intros [= <-]. simpl. by rewrite (IH _ eq_refl).
Qed.

Lemma py_list_length v : iterable v → length <$> py_list v = Ok (series_length v).
Proof. intros [l Hl]. unfold series_length. by rewrite Hl. Qed.

Lemma size_list_to_set_le_1 (l : list nat) :
  (length l ≤ 1)%nat → ¬ (1 < size (list_to_set l : gset nat))%nat.
Proof.
  destruct l as [|a [|b l]]; intros Hl.
  - rewrite list_to_set_nil, size_empty. lia.
  - rewrite list_to_set_cons, list_to_set_nil, (right_id_L ∅ (∪)), size_singleton.
    lia.
  - simpl in Hl. lia.
Qed.

Lemma size_list_to_set_two (l : list nat) a b :
  a ∈ l → b ∈ l → a ≠ b → (1 < size (list_to_set l : gset nat))%nat.
Proof.
  intros Ha Hb Hne.
  assert ({[a; b]} ⊆ (list_to_set l : gset nat)) as Hsub.
  { intros x [->%elem_of_singleton| ->%elem_of_singleton]%elem_of_union;
      by apply elem_of_list_to_set. }
  apply subseteq_size in Hsub.
  rewrite size_union, !size_singleton in Hsub; [lia|].
  intros x ->%elem_of_singleton ?%elem_of_singleton. done.
Qed.

(** With at most one list or array among the values, the check raises no
    length mismatch: it passes, or the one array is 0-dimensional. *)
Lemma _check_series_lengths_single (self : Dataset.t Item) :
  (length (checked (Dataset._series self)) ≤ 1)%nat →
  Dataset._check_series_lengths self = Ok () ∨
  (VArray0 ∈ checked (Dataset._series self) ∧
   Dataset._check_series_lengths self = Err (TypeError "iteration over a 0-d array")).
Proof.
  intros Hle. unfold Dataset._check_series_lengths. fold (checked (Dataset._series self)).
  destruct (result_mapM _ (checked _)) as [lengths|e] eqn:Hm.
  - left. apply result_mapM_length in Hm.
    rewrite decide_False; [done|]. apply size_list_to_set_le_1. lia.
  - right. destruct (checked _) as [|v [|v' l]] eqn:Hc; simpl in Hle; [done| |lia].
    assert (v ∈ checked (Dataset._series self)) as Hv by (rewrite Hc; by left).
    apply list_elem_of_filter in Hv as [Hv _].
    cbn [result_mapM] in Hm.
    destruct v; try done; simpl in Hm; injection Hm as <-.
    split; [by left|done].
Qed.

Lemma checked_placeholders (paths : gmap string string) :
  checked ((λ _, VNone : series_value Item) <$> paths) = [].
Proof.
  unfold checked.
  assert (Forall (λ v, v = VNone)
            (map_to_list ((λ _, VNone : series_value Item) <$> paths)).*2) as Hall.
  { apply Forall_forall. intros v ([k v'] & -> & Hkv)%list_elem_of_fmap.
    apply elem_of_map_to_list in Hkv. rewrite lookup_fmap in Hkv.
    destruct (paths !! k); by simplify_eq/=. }
  induction Hall as [|v l -> _ IH]; [done|].
  rewrite filter_cons_False; [done|]. simpl. discriminate.
Qed.

(** C10.  When at most one series is a list or an array, the constructor
    of [Dataset] raises no [LengthMismatch], whatever the other values are
    and however long they are; it returns the dataset unless that one array
    is 0-dimensional.  So the constructor of [LazyDataset], which hands it
    a [None] for every path, always returns the lazy dataset. *)
Theorem lone_list_is_never_a_mismatch (name : string) series
    (series_outputs : gmap string string) :
  (length (checked series) ≤ 1)%nat →
  (∀ report, Dataset.__init__ name series series_outputs ≠ Err (LengthMismatch report)) ∧
  (VArray0 ∉ checked series →
   Dataset.__init__ name series series_outputs
   = Ok {| Dataset.name := name; Dataset._series := series;
           Dataset.series_outputs := series_outputs |}) ∧
  (∀ (series_paths : gmap string string) (preprocess : Item → Item),
     LazyDataset.__init__ name series_paths series_outputs preprocess
     = Ok {| LazyDataset.base :=
               {| Dataset.name := name;
                  Dataset._series := (λ _, VNone) <$> series_paths;
                  Dataset.series_outputs := series_outputs |};
             LazyDataset.series_paths := series_paths;
             LazyDataset.preprocess := preprocess |}).
Proof.
  intros Hle. split_and!.
  - intros report. unfold Dataset.__init__.
    destruct (_check_series_lengths_single
                {| Dataset.name := name; Dataset._series := series;
                   Dataset.series_outputs := series_outputs |} Hle) as [->|[_ ->]];
      discriminate.
  - intros H0. unfold Dataset.__init__.
    destruct (_check_series_lengths_single
                {| Dataset.name := name; Dataset._series := series;
                   Dataset.series_outputs := series_outputs |} Hle) as [->|[? _]];
      done.
  - intros series_paths preprocess. unfold LazyDataset.__init__, Dataset.__init__.
    destruct (_check_series_lengths_single
                {| Dataset.name := name;
                   Dataset._series := (λ _, VNone : series_value Item) <$> series_paths;
                   Dataset.series_outputs := series_outputs |}) as [->|[Hin _]].
    + simpl. rewrite checked_placeholders. simpl. lia.
    + done.
    + simpl in Hin. rewrite checked_placeholders in Hin. by apply elem_of_nil in Hin.
Qed.

(** C5, amended.  When every series value can be iterated and two of the
    lists or arrays differ in length, the constructor of [Dataset] fails
    with [LengthMismatch]; the report names every series with its length,
    and no dataset is returned. *)
Theorem unequal_lengths_are_reported (name : string) series
    (series_outputs : gmap string string) (s1 s2 : string) v1 v2 :
  map_Forall (λ _ v, iterable v) series →
  series !! s1 = Some v1 → is_list_or_array v1 = true →
  series !! s2 = Some v2 → is_list_or_array v2 = true →
  series_length v1 ≠ series_length v2 →
  let lengths := (λ sv, (sv.1, series_length sv.2)) <$> map_to_list series in
  Dataset.__init__ name series series_outputs
    = Err (LengthMismatch (length_report lengths)) ∧
  ∀ s v, series !! s = Some v → (s, series_length v) ∈ lengths.
Proof.
  intros Hiter H1 Hl1 H2 Hl2 Hne. cbv zeta. split.
  - unfold Dataset.__init__, Dataset._check_series_lengths. cbn [Dataset._series].
    fold (checked series).
    assert (Hin : ∀ s v, series !! s = Some v → is_list_or_array v = true →
                         v ∈ checked series).
    { intros s v Hs Hv. apply list_elem_of_filter. split; [done|].
      apply list_elem_of_fmap. exists (s, v). split; [done|].
      by apply elem_of_map_to_list. }
    rewrite (result_mapM_Ok _ series_length).
    2:{ apply Forall_forall. intros v [_ Hv]%list_elem_of_filter.
        apply list_elem_of_fmap in Hv as ([s v'] & -> & Hsv).
        apply elem_of_map_to_list in Hsv. by apply py_list_length, (Hiter s). }
    rewrite decide_True.
    2:{ apply (size_list_to_set_two _ (series_length v1) (series_length v2));
          [apply list_elem_of_fmap_2; eauto ..|done]. }
    rewrite (result_mapM_Ok _ (λ sv, sv.1 +:+ ": " +:+ pretty (series_length sv.2))).
    2:{ apply Forall_forall. intros [s v] Hsv. apply elem_of_map_to_list in Hsv.
        destruct (Hiter s v Hsv) as [l Hl]. unfold series_length. simpl.
        by rewrite Hl. }
    unfold LengthMismatch, length_report. by rewrite <-list_fmap_compose.
  - intros s v Hs. apply list_elem_of_fmap. exists (s, v). split; [done|].
    by apply elem_of_map_to_list.
Qed.

End lengths.

Lemma lone_list_is_never_a_mismatch_witness :
  (length (checked Sample.mixed) ≤ 1)%nat ∧
  Dataset.__init__ "m" Sample.mixed ∅
  = Ok {| Dataset.name := "m"; Dataset._series := Sample.mixed;
          Dataset.series_outputs := ∅ |}.
Proof.
  assert (length (checked Sample.mixed) ≤ 1)%nat as Hle by (vm_compute; lia).
  split; [exact Hle|].
  destruct (lone_list_is_never_a_mismatch "m" Sample.mixed ∅ Hle) as (_ & Hok & _).
  apply Hok.
  assert (checked Sample.mixed = [VList [1; 2; 3]]) as -> by (vm_compute; reflexivity).
  intros [?|H]%elem_of_cons; [discriminate | by apply elem_of_nil in H].
Defined.

(** C5, as stated, fails when a series that is no list stands next to the
    lists of lengths 3 and 5: the report cannot take the length of [None],
    and the construction ends in a [TypeError] instead of the
    [LengthMismatch]. *)
Lemma mismatch_report_stops_at_none :
  Sample.unequal_and_none !! "a" = Some (VList [1; 2; 3]) ∧
  Sample.unequal_and_none !! "b" = Some (VList [1; 2; 3; 4; 5]) ∧
  Sample.unequal_and_none !! "c" = Some VNone ∧
  Dataset.__init__ "x" Sample.unequal_and_none ∅
    = Err (TypeError "'NoneType' object is not iterable") ∧
  ∀ report, Dataset.__init__ "x" Sample.unequal_and_none ∅ ≠ Err (LengthMismatch report).
Proof.
  assert (Dataset.__init__ "x" Sample.unequal_and_none ∅
          = Err (TypeError "'NoneType' object is not iterable")) as H
    by (vm_compute; reflexivity).
  split_and!; try (vm_compute; reflexivity).
  intros report. rewrite H. discriminate.
Qed.

Lemma unequal_lengths_are_reported_witness :
  map_Forall (λ _ v, iterable v) Sample.unequal ∧
  Dataset.__init__ "x" Sample.unequal ∅
  = Err (Exception "Lengths of data series must be equal. Instead: a: 3, b: 5").
Proof.
  assert (map_Forall (λ _ v, iterable v) Sample.unequal) as Hit by compute_done.
  split; [exact Hit|].
  apply (unequal_lengths_are_reported "x" Sample.unequal ∅ "a" "b"
           (VList [1; 2; 3]) (VList [1; 2; 3; 4; 5]) Hit);
    [reflexivity | reflexivity | reflexivity | reflexivity | vm_compute; lia].
Defined.

(** ** Reading a lazy series more than once *)

Section lazy_reads.
Context {Item : Type}.
Implicit Types (fs : filesystem Item) (hp : heap Item) (d : LazyDataset.t Item).

Lemma heap_next_other fs h h' hp :
  h ≠ h' → (heap_next fs h hp).2 !! h' = hp !! h'.
Proof.
  intros Hne. unfold heap_next. destruct (hp !! h) as [g|]; [|done].
  destruct (gen_next fs g) as [o g']. simpl. by apply list_lookup_insert_ne.
Qed.

Lemma heap_nexts_other fs h h' n hp :
  h ≠ h' → heap_nexts fs h n hp !! h' = hp !! h'.
Proof.
  intros Hne. revert hp. induction n as [|n IH]; intros hp; simpl; [done|].
  by rewrite IH, heap_next_other.
Qed.

Lemma heap_list_other fs h h' hp :
  h ≠ h' → (heap_list fs h hp).2 !! h' = hp !! h'.
Proof.
  intros Hne. unfold heap_list. destruct (hp !! h) as [g|]; [|done].
  simpl. by apply list_lookup_insert_ne.
Qed.

Lemma heap_list_created fs h hp path preprocess :
  hp !! h = Some (GenCreated path preprocess) →
  (heap_list fs h hp).1 = Some (list_of_gen (create_dataset_series fs path preprocess)).
Proof. intros Hh. unfold heap_list. by rewrite Hh. Qed.

(** A call of [get_series] on a present name allocates the next object of
    the heap and leaves the objects that exist as they are. *)
Lemma get_series_present d name path allow_none hp :
  LazyDataset.series_paths d !! name = Some path →
  LazyDataset.get_series d name allow_none hp
  = (Ok (LazyDataset.RGenerator (length hp)),
     hp ++ [GenCreated path (LazyDataset.preprocess d)]).
Proof. intros Hp. unfold LazyDataset.get_series. by rewrite Hp. Qed.

(** C7.  Two calls of [get_series] on a present name of a lazy dataset give
    two distinct generator objects.  Against the same files each of them
    yields the same sequence, the whole series from its start (for a text
    file: every line, preprocessed), and neither has a cursor that the
    other moves: however far one has been advanced, or even run to its end,
    the other still yields the whole sequence.  The same holds when the
    second call comes after the first generator was run to its end. *)
Theorem lazy_reads_are_independent fs d (name path : string) (allow_none : bool) hp :
  LazyDataset.series_paths d !! name = Some path →
  let whole := list_of_gen (create_dataset_series fs path (LazyDataset.preprocess d)) in
  ∃ (h1 h2 : nat) (hp1 hp2 : heap Item),
    LazyDataset.get_series d name allow_none hp = (Ok (LazyDataset.RGenerator h1), hp1) ∧
    LazyDataset.get_series d name allow_none hp1 = (Ok (LazyDataset.RGenerator h2), hp2) ∧
    h1 ≠ h2 ∧
    (heap_list fs h1 hp2).1 = Some whole ∧
    (heap_list fs h2 hp2).1 = Some whole ∧
    (∀ n, (heap_list fs h2 (heap_nexts fs h1 n hp2)).1 = Some whole) ∧
    (∀ n, (heap_list fs h1 (heap_nexts fs h2 n hp2)).1 = Some whole) ∧
    (heap_list fs h2 (heap_list fs h1 hp2).2).1 = Some whole ∧
    (∃ h2' hp2',
       LazyDataset.get_series d name allow_none (heap_list fs h1 hp1).2
         = (Ok (LazyDataset.RGenerator h2'), hp2') ∧
       (heap_list fs h1 hp1).1 = Some whole ∧
       (heap_list fs h2' hp2').1 = Some whole) ∧
    (∀ file_type,
       magic_from_file fs path = Ok file_type →
       String.prefix "text/" file_type = true →
       whole = Ok (LazyDataset.preprocess d <$> reader_read fs path)).
Proof.
  intros Hp whole.
  set (g := GenCreated path (LazyDataset.preprocess d)).
  exists (length hp), (S (length hp)), (hp ++ [g]), ((hp ++ [g]) ++ [g]).
  assert (H1 : (hp ++ [g]) !! length hp = Some g).
  { rewrite lookup_app_r by lia. by rewrite Nat.sub_diag. }
  assert (H1' : ((hp ++ [g]) ++ [g]) !! length hp = Some g).
  { rewrite lookup_app_l; [done|]. rewrite length_app. simpl. lia. }
  assert (H2 : ((hp ++ [g]) ++ [g]) !! S (length hp) = Some g).
  { rewrite lookup_app_r; rewrite length_app; simpl; [|lia].
    by replace (S (length hp) - (length hp + 1)) with 0 by lia. }
  split_and!.
  - by apply get_series_present.
  - rewrite (get_series_present d name path) by done.
    rewrite length_app. simpl. by rewrite Nat.add_1_r.
  - lia.
  - by apply heap_list_created.
  - by apply heap_list_created.
  - intros n. apply heap_list_created. rewrite heap_nexts_other by lia. done.
  - intros n. apply heap_list_created. rewrite heap_nexts_other by lia. done.
  - apply heap_list_created. rewrite heap_list_other by lia. done.
  - exists (length (heap_list fs (length hp) (hp ++ [g])).2),
           ((heap_list fs (length hp) (hp ++ [g])).2 ++ [g]).
    split_and!.
    + by apply get_series_present.
    + by apply heap_list_created.
    + apply heap_list_created. rewrite lookup_app_r by lia.
      by rewrite Nat.sub_diag.
  - intros file_type Hm Ht. by apply create_dataset_series_text with file_type.
Qed.

End lazy_reads.

Lemma lazy_reads_are_independent_witness :
  LazyDataset.series_paths Sample.lazy_train !! "src" = Some "train.txt" ∧
  ∃ (h1 h2 : nat) (hp1 hp2 : heap string),
    LazyDataset.get_series Sample.lazy_train "src" false []
      = (Ok (LazyDataset.RGenerator h1), hp1) ∧
    LazyDataset.get_series Sample.lazy_train "src" false hp1
      = (Ok (LazyDataset.RGenerator h2), hp2) ∧
    h1 ≠ h2 ∧
    (heap_list Sample.fs h2 (heap_nexts Sample.fs h1 2 hp2)).1
      = Some (Ok ["a b"; "c d"; "e"]).
Proof.
  split; [reflexivity|].
  destruct (lazy_reads_are_independent Sample.fs Sample.lazy_train "src" "train.txt"
              false [] eq_refl)
    as (h1 & h2 & hp1 & hp2 & Hg1 & Hg2 & Hne & _ & _ & Hn & _).
  exists h1, h2, hp1, hp2. split_and!; [done..|]. apply (Hn 2).
Defined.

(** ** Shuffling *)

Section permuting.
Context {A : Type}.
Implicit Types (x : list A) (draws : list nat).

Lemma swap_length i j x : length (swap i j x) = length x.
Proof.
  unfold swap. destruct (x !! i), (x !! j); try done.
  by rewrite !length_insert.
Qed.

Lemma swap_Permutation i j x : swap i j x ≡ₚ x.
Proof.
  unfold swap. destruct (x !! i) eqn:Hi, (x !! j) eqn:Hj; try done.
  by apply Permutation_insert_swap.
Qed.

Lemma swap_fmap {B} (f : A → B) i j x : swap i j (f <$> x) = f <$> swap i j x.
Proof.
  unfold swap. rewrite !list_lookup_fmap.
  destruct (x !! i), (x !! j); simpl; try done.
  by rewrite !list_fmap_insert.
Qed.

Lemma shuffle_loop_length i draws x : length (shuffle_loop i draws x) = length x.
Proof.
  revert draws x. induction i as [|i IH]; intros draws x; simpl; [done|].
  by rewrite IH, swap_length.
Qed.

Lemma shuffle_loop_Permutation i draws x : shuffle_loop i draws x ≡ₚ x.
Proof.
  revert draws x. induction i as [|i IH]; intros draws x; simpl; [done|].
  by rewrite IH, swap_Permutation.
Qed.

Lemma shuffle_loop_fmap {B} (f : A → B) i draws x :
  shuffle_loop i draws (f <$> x) = f <$> shuffle_loop i draws x.
Proof.
  revert draws x. induction i as [|i IH]; intros draws x; simpl; [done|].
  by rewrite swap_fmap, IH.
Qed.

Lemma random_shuffle_length draws x : length (random_shuffle draws x) = length x.
Proof. apply shuffle_loop_length. Qed.

(** [random.shuffle] permutes its list. *)
Lemma random_shuffle_Permutation draws x : random_shuffle draws x ≡ₚ x.
Proof. apply shuffle_loop_Permutation. Qed.

(** The exchanges depend on the draws and on the length only. *)
Lemma random_shuffle_fmap {B} (f : A → B) draws x :
  random_shuffle draws (f <$> x) = f <$> random_shuffle draws x.
Proof. unfold random_shuffle. by rewrite length_fmap, shuffle_loop_fmap. Qed.

End permuting.

Section permuting_by_index.
Context {A : Type}.
Implicit Types (x : list A) (draws : list nat).

Lemma fmap_lookup_seq x : (x !!.) <$> seq 0 (length x) = Some <$> x.
Proof.
  apply list_eq. intros i. rewrite !list_lookup_fmap.
  destruct (decide (i < length x)) as [Hi|Hi].
  - rewrite lookup_seq_lt by done. simpl.
    destruct (lookup_lt_is_Some_2 x i Hi) as [a Ha]. by rewrite Ha.
  - rewrite lookup_seq_ge by lia. by rewrite lookup_ge_None_2 by lia.
Qed.

(** The shuffled list reads the old list through the shuffled indices. *)
Lemma random_shuffle_lookup draws x i :
  random_shuffle draws x !! i
  = random_shuffle draws (seq 0 (length x)) !! i ≫= (x !!.).
Proof.
  pose proof (random_shuffle_fmap (x !!.) draws (seq 0 (length x))) as H.
  rewrite fmap_lookup_seq, random_shuffle_fmap in H.
  apply (f_equal (.!! i)) in H. rewrite !list_lookup_fmap in H.
  destruct (random_shuffle draws (seq 0 (length x)) !! i) as [j|]; simpl in *.
  - destruct (random_shuffle draws x !! i); by simplify_eq/=.
  - by destruct (random_shuffle draws x !! i).
Qed.

End permuting_by_index.

Section transposing.
Context {A : Type}.
Implicit Types (m : list (list A)).

Lemma heads_spec m n :
  Forall (λ c, length c = S n) m →
  ∃ row, heads m = Some row ∧ length row = length m ∧
         ∀ k, row !! k = m !! k ≫= (.!! 0).
Proof.
  induction 1 as [|c m Hc _ (row & Hrow & Hlen & Hk)].
  - exists []. split_and!; [done..|]. by intros k.
  - destruct c as [|a c]; [done|]. exists (a :: row). unfold heads in *.
    split_and!.
    + cbn. by rewrite Hrow.
    + simpl. by rewrite Hlen.
    + intros [|k]; [done|]. simpl. apply Hk.
Qed.

Lemma zip_rows_spec n m :
  Forall (λ c, length c = n) m →
  length (zip_rows n m) = n ∧
  ∀ i r, zip_rows n m !! i = Some r →
         length r = length m ∧ ∀ k, r !! k = m !! k ≫= (.!! i).
Proof.
  revert m. induction n as [|n IH]; intros m Hm.
  { split; [done|]. intros i r Hr. simpl in Hr. by rewrite lookup_nil in Hr. }
  destruct (heads_spec m n Hm) as (row & Hrow & Hlen & Hk).
  cbn [zip_rows]. rewrite Hrow.
  assert (Forall (λ c, length c = n) (tail <$> m)) as Hm'.
  { apply Forall_fmap. eapply Forall_impl; [exact Hm|].
    intros [|a c] Hc; simpl in *; [done|lia]. }
  destruct (IH _ Hm') as [Hn Hi]. split; [simpl; by rewrite Hn|].
  intros [|i] r Hr; simpl in Hr.
  - injection Hr as <-. done.
  - destruct (Hi i r Hr) as [Hr1 Hr2]. rewrite length_fmap in Hr1.
    split; [done|]. intros k. rewrite Hr2, list_lookup_fmap.
    destruct (m !! k) as [c|]; simpl; [|done]. by destruct c.
Qed.

(** [zip] with a starred argument transposes a rectangle. *)
Lemma zip_star_spec m n :
  m ≠ [] → Forall (λ c, length c = n) m →
  length (zip_star m) = n ∧
  ∀ i r, zip_star m !! i = Some r →
         length r = length m ∧ ∀ k, r !! k = m !! k ≫= (.!! i).
Proof.
  intros Hne Hm. destruct m as [|c m]; [done|]. unfold zip_star.
  rewrite (Forall_inv Hm). by apply zip_rows_spec.
Qed.

End transposing.

Section shuffled_columns.
Context {A : Type}.
Implicit Types (cols : list (list A)) (draws : list nat).

(** The columns of a rectangle with no column or no row come out as no
    column at all. *)
Lemma shuffled_columns_none cols draws L :
  Forall (λ c, length c = L) cols → cols = [] ∨ L = 0 →
  zip_star (random_shuffle draws (zip_star cols)) = [].
Proof.
  intros Hall Hd.
  assert (zip_star cols = []) as ->; [|done].
  destruct Hd as [->| ->]; [done|].
  destruct (decide (cols = [])) as [->|Hne]; [done|].
  apply nil_length_inv. by apply (zip_star_spec cols 0).
Qed.

(** Zipping, shuffling the tuples and zipping back: every column is read
    through the same shuffled indices. *)
Lemma shuffled_columns cols draws L :
  cols ≠ [] → Forall (λ c, length c = L) cols → 0 < L →
  let cols' := zip_star (random_shuffle draws (zip_star cols)) in
  length cols' = length cols ∧
  ∀ k c c', cols !! k = Some c → cols' !! k = Some c' →
    length c' = L ∧
    ∀ i, c' !! i = random_shuffle draws (seq 0 L) !! i ≫= (c !!.).
Proof.
  intros Hne Hall HL. cbv zeta.
  destruct (zip_star_spec cols L Hne Hall) as [Hrl Hrows].
  set (rows := zip_star cols) in *.
  set (rows' := random_shuffle draws rows).
  assert (length rows' = L) as Hrl' by (unfold rows'; by rewrite random_shuffle_length).
  assert (rows' ≠ []) as Hne' by (intros E; rewrite E in Hrl'; simpl in Hrl'; lia).
  assert (Forall (λ r, length r = length cols) rows') as Hall'.
  { unfold rows'. rewrite random_shuffle_Permutation.
    apply Forall_lookup. intros i r Hr. by apply (Hrows i r). }
  destruct (zip_star_spec rows' (length cols) Hne' Hall') as [Hcl Hcols].
  split; [done|]. intros k c c' Hc Hc'.
  destruct (Hcols k c' Hc') as [Hlen Hread]. split; [lia|].
  intros i. rewrite Hread. unfold rows'. rewrite random_shuffle_lookup, Hrl.
  destruct (random_shuffle draws (seq 0 L) !! i) as [j|]; simpl; [|done].
  destruct (rows !! j) as [r|] eqn:Hr; simpl.
  - destruct (Hrows j r Hr) as [_ Hrk]. by rewrite Hrk, Hc.
  - apply lookup_ge_None in Hr. symmetry. apply lookup_ge_None.
    rewrite (Forall_lookup_1 _ _ _ _ Hall Hc). lia.
Qed.

End shuffled_columns.

Section shuffling.
Context {Item : Type}.
Implicit Types (series : gmap string (series_value Item)) (draws : list nat).

Lemma assign_series_lookup series (keys : list string) (cols' : list (list Item)) s :
  NoDup keys → length keys = length cols' →
  (∀ k c', keys !! k = Some s → cols' !! k = Some c' →
     Dataset.assign_series series (zip keys cols') !! s = Some (VTuple c')) ∧
  (s ∉ keys → Dataset.assign_series series (zip keys cols') !! s = series !! s).
Proof.
  intros Hnd Hlen.
  assert ((zip keys cols').*1 = keys) as Hfst by (apply fst_zip; lia).
  assert (NoDup (zip keys cols').*1) as Hnd' by by rewrite Hfst.
  split.
  - intros k c' Hk Hc'. unfold Dataset.assign_series.
    apply (foldl_insert_lookup VTuple series _ s _ Hnd'). left.
    exists c'. split; [|done].
    by apply (elem_of_lookup_zip_with_2 pair keys cols' s c' (s, c') k).
  - intros Hs. unfold Dataset.assign_series.
    destruct (series !! s) as [v|] eqn:Hv.
    + apply (foldl_insert_lookup VTuple series _ s _ Hnd'). right.
      by rewrite Hfst.
    + destruct (foldl _ series _ !! s) as [v'|] eqn:Hv'; [|done].
      apply (foldl_insert_lookup VTuple series _ s _ Hnd') in Hv'
        as [(w & Hw & _)|[_ Hv']]; [|congruence].
      exfalso. apply Hs. rewrite <-Hfst.
      apply list_elem_of_fmap. by exists (s, w).
Qed.

End shuffling.

Section shuffle_dataset.
Context {Item : Type}.
Implicit Types (self : Dataset.t Item) (draws : list nat).

Lemma iterable_items (v : series_value Item) :
  iterable v → py_list v = Ok (series_items v).
Proof. intros [l Hl]. unfold series_items. by rewrite Hl. Qed.

Lemma series_length_items (v : series_value Item) :
  series_length v = length (series_items v).
Proof. unfold series_length, series_items. by destruct (py_list v). Qed.

(** C4.  Let every series of an eager dataset be iterable and of the common
    length [L].  Then [shuffle] returns, and there is one permutation [p] of
    the indices [0 .. L-1], hit exactly once each, such that every series
    holds after the call, at every position [i], the item it held before at
    position [p(i)]: nothing is created, lost or duplicated, and the items
    at equal positions stay together.  The name, the outputs and the names
    of the series are as before. *)
Theorem shuffle_is_one_permutation draws self (L : nat) :
  map_Forall (λ _ v, iterable v ∧ series_length v = L) (Dataset._series self) →
  ∃ (p : list nat) (self' : Dataset.t Item),
    p ≡ₚ seq 0 L ∧
    (∀ j, j < L → ∃ i, p !! i = Some j ∧ ∀ i', p !! i' = Some j → i' = i) ∧
    Dataset.shuffle draws self = Ok self' ∧
    Dataset.name self' = Dataset.name self ∧
    Dataset.series_outputs self' = Dataset.series_outputs self ∧
    dom (Dataset._series self') = dom (Dataset._series self) ∧
    ∀ s v, Dataset._series self !! s = Some v →
      ∃ v', Dataset._series self' !! s = Some v' ∧
            iterable v' ∧ series_length v' = L ∧
            ∀ i, series_items v' !! i = p !! i ≫= (series_items v !!.).
Proof.
  intros Hall. set (series := Dataset._series self) in *.
  set (p := random_shuffle draws (seq 0 L)).
  assert (Hp : p ≡ₚ seq 0 L) by apply random_shuffle_Permutation.
  set (kvs := map_to_list series).
  set (cols := series_items <$> kvs.*2).
  assert (Hcols : result_mapM py_list kvs.*2 = Ok cols).
  { apply result_mapM_Ok, Forall_forall.
    intros v ([s v'] & -> & Hsv%elem_of_map_to_list)%list_elem_of_fmap.
    apply iterable_items. by destruct (Hall s v' Hsv). }
  assert (Hlens : Forall (λ c, length c = L) cols).
  { unfold cols. apply Forall_fmap, Forall_forall.
    intros v ([s v'] & -> & Hsv%elem_of_map_to_list)%list_elem_of_fmap.
    simpl. rewrite <-series_length_items. by destruct (Hall s v' Hsv). }
  set (cols' := zip_star (random_shuffle draws (zip_star cols))).
  exists p, {| Dataset.name := Dataset.name self;
               Dataset._series := Dataset.assign_series series (zip kvs.*1 cols');
               Dataset.series_outputs := Dataset.series_outputs self |}.
  split; [done|]. split.
  { intros j Hj.
    assert (j ∈ p) as [i Hi]%list_elem_of_lookup.
    { rewrite Hp. apply elem_of_seq. lia. }
    exists i. split; [done|]. intros i' Hi'.
    apply (NoDup_lookup p i' i j); [|done..]. rewrite Hp. apply NoDup_seq. }
  split.
  { unfold Dataset.shuffle. fold series kvs. by rewrite Hcols. }
  split; [done|]. split; [done|]. cbn [Dataset._series].
  assert (Hkeys : NoDup kvs.*1) by apply NoDup_fst_map_to_list.
  assert (Hlk : length kvs.*1 = length cols) by (unfold cols; by rewrite !length_fmap).
  destruct (decide (cols = [] ∨ L = 0)) as [Hd|Hd].
  - (* no column or no row: nothing is assigned *)
    assert (cols' = []) as -> by by apply (shuffled_columns_none cols draws L).
    rewrite zip_with_nil_r. simpl. split; [done|].
    intros s v Hv. exists v. destruct (Hall s v Hv) as [Hit HL].
    split_and!; [done..|]. intros i.
    assert (L = 0) as HL0.
    { destruct Hd as [Hc|]; [|done]. exfalso.
      apply elem_of_map_to_list in Hv. fold kvs in Hv.
      apply (list_elem_of_fmap_2 snd), (list_elem_of_fmap_2 series_items) in Hv.
      fold cols in Hv. rewrite Hc in Hv. by apply elem_of_nil in Hv. }
    rewrite series_length_items, HL0 in HL. apply nil_length_inv in HL.
    rewrite HL. unfold p. rewrite HL0. done.
  - (* a true rectangle *)
    assert (cols ≠ [] ∧ 0 < L) as [Hne HL] by (split; [tauto|lia]).
    destruct (shuffled_columns cols draws L Hne Hlens HL) as [Hcl Hread].
    fold cols' in Hcl, Hread.
    assert (Hlk' : length kvs.*1 = length cols') by lia.
    assert (Hat : ∀ s v, series !! s = Some v →
              ∃ k c', kvs.*1 !! k = Some s ∧ cols !! k = Some (series_items v) ∧
                      cols' !! k = Some c').
    { intros s v Hv. apply elem_of_map_to_list in Hv. fold kvs in Hv.
      apply list_elem_of_lookup in Hv as [k Hk].
      assert (cols !! k = Some (series_items v)) as Hck.
      { unfold cols. by rewrite !list_lookup_fmap, Hk. }
      destruct (lookup_lt_is_Some_2 cols' k) as [c' Hc'].
      { rewrite Hcl. by apply lookup_lt_Some in Hck. }
      exists k, c'. split_and!; [|done..]. by rewrite list_lookup_fmap, Hk. }
    split.
    + apply set_eq. intros s. rewrite !elem_of_dom. split.
      * intros [v' Hv'].
        destruct (decide (s ∈ kvs.*1)) as [Hin|Hnin].
        -- apply list_elem_of_fmap in Hin as ([s' v] & -> & Hsv).
           apply elem_of_map_to_list in Hsv. by exists v.
        -- destruct (assign_series_lookup series kvs.*1 cols' s Hkeys Hlk')
             as [_ Hout]. rewrite (Hout Hnin) in Hv'. by exists v'.
      * intros [v Hv]. destruct (Hat s v Hv) as (k & c' & Hk & _ & Hc').
        destruct (assign_series_lookup series kvs.*1 cols' s Hkeys Hlk')
          as [Hin _]. rewrite (Hin k c' Hk Hc'). eauto.
    + intros s v Hv. destruct (Hat s v Hv) as (k & c' & Hk & Hck & Hc').
      destruct (assign_series_lookup series kvs.*1 cols' s Hkeys Hlk') as [Hin _].
      destruct (Hread k _ c' Hck Hc') as [Hlen Hi].
      exists (VTuple c'). split_and!.
      * by apply (Hin k).
      * by exists c'.
      * done.
      * done.
Qed.

End shuffle_dataset.

Lemma shuffle_is_one_permutation_witness :
  map_Forall (λ _ v, iterable v ∧ series_length v = 3) (Dataset._series Sample.aligned) ∧
  ∃ self',
    Dataset.shuffle [0; 0] Sample.aligned = Ok self' ∧
    Dataset._series self' !! "src" = Some (VTuple ["b"; "c"; "a"]) ∧
    Dataset._series self' !! "tgt" = Some (VTuple ["y"; "z"; "x"]).
Proof.
  assert (map_Forall (λ _ v, iterable v ∧ series_length v = 3)
            (Dataset._series Sample.aligned)) as Hall by compute_done.
  split; [exact Hall|].
  destruct (shuffle_is_one_permutation [0; 0] Sample.aligned 3 Hall)
    as (p & self' & _ & _ & Hs & _).
  exists self'. split; [exact Hs|].
  assert (Dataset.shuffle [0; 0] Sample.aligned
          = Ok {| Dataset.name := "t";
                  Dataset._series :=
                    {[ "src" := VTuple ["b"; "c"; "a"]; "tgt" := VTuple ["y"; "z"; "x"] ]};
                  Dataset.series_outputs := ∅ |}) as E by (vm_compute; reflexivity).
  rewrite E in Hs. injection Hs as <-. split; reflexivity.
Defined.

(** * Further properties of the module *)

(** ** Keyword arguments *)

(** X1.  The input paths are exactly the values of the keys [s_<series>]
    whose series name has no underscore: the series [series] has the input
    path [path] if and only if the key [s_<series>] is given with that
    path. *)
Theorem series_paths_are_the_s_keys (kwargs : gmap string string) (series path : string) :
  _get_series_paths kwargs !! series = Some path ↔
  contains "_" series = false ∧ kwargs !! ("s_" +:+ series) = Some path.
Proof. apply _get_series_paths_lookup. Qed.

(** X2.  No key is read both as an input key and as an output key. *)
Theorem no_key_is_input_and_output (k : string) :
  is_Some (SERIES_SOURCE_match k) → SERIES_OUTPUT_match k = None.
Proof.
  intros [series [-> Hu]%SERIES_SOURCE_match_Some].
  by apply SERIES_OUTPUT_match_source.
Qed.

Lemma no_key_is_input_and_output_witness :
  is_Some (SERIES_SOURCE_match "s_source") ∧ SERIES_OUTPUT_match "s_source" = None.
Proof.
  assert (is_Some (SERIES_SOURCE_match "s_source")) as H by (vm_compute; eauto).
  split; [exact H|]. exact (no_key_is_input_and_output "s_source" H).
Defined.

Lemma foldl_insert_sound {V W} (f : W → V) (m : gmap string V)
    (l : list (string * W)) k v :
  (foldl (λ acc kv, <[kv.1 := f kv.2]> acc) m l) !! k = Some v →
  (∃ w, (k, w) ∈ l ∧ v = f w) ∨ m !! k = Some v.
Proof.
  revert m. induction l as [|[k0 w0] l IH]; intros m; simpl; [by right|].
  intros [(w & Hw & ->)|Hm]%IH.
  - left. exists w. split; [by right|done].
  - destruct (decide (k0 = k)) as [->|Hne].
    + rewrite lookup_insert_eq in Hm. injection Hm as <-.
      left. exists w0. split; [by left|done].
    + rewrite lookup_insert_ne in Hm by done. by right.
Qed.

Lemma foldl_insert_is_Some {V W} (f : W → V) (m : gmap string V)
    (l : list (string * W)) k :
  is_Some ((foldl (λ acc kv, <[kv.1 := f kv.2]> acc) m l) !! k) ↔
  k ∈ l.*1 ∨ is_Some (m !! k).
Proof.
  revert m. induction l as [|[k0 w0] l IH]; intros m; simpl.
  { split; [by right|]. intros [[]%elem_of_nil|]; done. }
  rewrite IH, elem_of_cons. destruct (decide (k0 = k)) as [->|Hne].
  - rewrite lookup_insert_eq. split; [intros; by left; left|].
    intros _. right. eauto.
  - rewrite lookup_insert_ne by done. split.
    + intros [?|?]; [left; by right|by right].
    + intros [[?|?]|?]; [congruence|by left|by right].
Qed.

(** The pairs that [_get_series_outputs] assigns, in order. *)
Lemma output_pairs_elem (kwargs : gmap string string) series path :
  (series, path) ∈
    omap (λ kv : string * string, (λ g, (g, kv.2)) <$> SERIES_OUTPUT_match kv.1)
      (map_to_list kwargs) ↔
  ∃ key, kwargs !! key = Some path ∧ SERIES_OUTPUT_match key = Some series.
Proof.
  rewrite list_elem_of_omap. split.
  - intros ([key v] & Hkv%elem_of_map_to_list & Hm). simpl in Hm.
    destruct (SERIES_OUTPUT_match key) as [g|] eqn:Hg; simplify_eq/=. eauto.
  - intros (key & Hk & Hm). exists (key, path). split.
    + by apply elem_of_map_to_list.
    + simpl. by rewrite Hm.
Qed.

(** Where the output paths come from. *)
Lemma _get_series_outputs_spec (kwargs : gmap string string) (series : string) :
  (∀ path, _get_series_outputs kwargs !! series = Some path →
     ∃ key, kwargs !! key = Some path ∧ SERIES_OUTPUT_match key = Some series) ∧
  (is_Some (_get_series_outputs kwargs !! series) ↔
     ∃ key, is_Some (kwargs !! key) ∧ SERIES_OUTPUT_match key = Some series).
Proof.
  unfold _get_series_outputs, dict_of_pairs. split.
  - intros path [(w & Hw & ->)|Hm]%(foldl_insert_sound id).
    + by apply output_pairs_elem.
    + by rewrite lookup_empty in Hm.
  - match goal with
    | |- is_Some (foldl _ _ ?l !! _) ↔ _ =>
        pose proof (foldl_insert_is_Some id ∅ l series) as H
    end.
    unfold id in H. rewrite H, list_elem_of_fmap. clear H. split.
    + intros [([s p] & -> & (key & Hk & Hm)%output_pairs_elem)|[? Hm]].
      * exists key. eauto.
      * by rewrite lookup_empty in Hm.
    + intros (key & [p Hp] & Hm). left. exists (series, p). split; [done|].
      apply output_pairs_elem. eauto.
Qed.

(** X3.  Every output path comes from a key that the output pattern
    matches with the series as its group, and a series has an output path
    as soon as one key matches for it. *)
Theorem output_paths_come_from_matching_keys (kwargs : gmap string string)
    (series : string) :
  (∀ path, _get_series_outputs kwargs !! series = Some path →
     ∃ key, kwargs !! key = Some path ∧ SERIES_OUTPUT_match key = Some series) ∧
  (is_Some (_get_series_outputs kwargs !! series) ↔
     ∃ key, is_Some (kwargs !! key) ∧ SERIES_OUTPUT_match key = Some series).
Proof. apply _get_series_outputs_spec. Qed.

(** X4.  The documented form: when [s_<series>_out] is given, the series
    name has no underscore and no newline, and no other key matches for
    that series, the output path of the series is the value of that key. *)
Theorem output_path_of_the_out_key (kwargs : gmap string string) (series path : string) :
  contains "_" series = false →
  contains Regex.newline series = false →
  kwargs !! ("s_" +:+ series +:+ "_out") = Some path →
  map_Forall (λ key _, SERIES_OUTPUT_match key = Some series →
                       key = "s_" +:+ series +:+ "_out") kwargs →
  _get_series_outputs kwargs !! series = Some path.
Proof.
  intros Hu Hn Hk Huniq.
  destruct (_get_series_outputs_spec kwargs series) as [Hsound Hdom].
  assert (is_Some (_get_series_outputs kwargs !! series)) as [p Hp].
  { apply Hdom. exists ("s_" +:+ series +:+ "_out"). split; [eauto|].
    by apply SERIES_OUTPUT_match_out. }
  destruct (Hsound p Hp) as (key & Hkey & Hm).
  rewrite (Huniq key p Hkey Hm) in Hkey. congruence.
Qed.

Lemma output_path_of_the_out_key_witness :
  contains "_" "target" = false ∧
  contains Regex.newline "target" = false ∧
  Inputs.kwargs !! "s_target_out" = Some "out.txt" ∧
  _get_series_outputs Inputs.kwargs !! "target" = Some "out.txt".
Proof.
  split_and!; [reflexivity..|].
  apply (output_path_of_the_out_key Inputs.kwargs "target" "out.txt");
    [reflexivity | reflexivity | reflexivity | compute_done].
Defined.

(** ** Series read from files *)

Section reading.
Context {Item : Type}.
Implicit Types (fs : filesystem Item) (preprocess : Item → Item).



(** X7.  Only text files yield items: when a series yields anything, the
    type of its file starts with [text/] and the reader has lines. *)
Theorem only_text_files_yield_items fs path preprocess :
  yielded (create_dataset_series fs path preprocess) ≠ [] →
  ∃ file_type,
    magic_from_file fs path = Ok file_type ∧
    String.prefix "text/" file_type = true ∧
    reader_read fs path ≠ [].
Proof.
  unfold create_dataset_series.
  destruct (magic_from_file fs path) as [file_type|e]; [|done].
  destruct (String.prefix "text/" file_type) eqn:Hp.
  - simpl. intros Hy. exists file_type. split_and!; [done..|].
    intros E. by rewrite E in Hy.
  - by destruct (String.eqb file_type "application/octet-stream").
Qed.

End reading.



Lemma only_text_files_yield_items_witness :
  yielded (create_dataset_series Inputs.fs "train.src" id) ≠ [] ∧
  ∃ file_type,
    magic_from_file Inputs.fs "train.src" = Ok file_type ∧
    String.prefix "text/" file_type = true ∧
    reader_read Inputs.fs "train.src" ≠ [].
Proof.
  assert (yielded (create_dataset_series Inputs.fs "train.src" id) ≠ []) as H
    by (vm_compute; discriminate).
  split; [exact H|]. exact (only_text_files_yield_items Inputs.fs "train.src" id H).
Defined.

(** ** The eager dataset *)

Section eager.
Context {Item : Type}.
Implicit Types (self : Dataset.t Item) (series : gmap string (series_value Item)).

Lemma result_mapM_Forall2 {A B} (f : A → result B) (l : list A) k :
  result_mapM f l = Ok k → Forall2 (λ x y, f x = Ok y) l k.
Proof.
  revert k. induction l as [|x l IH]; intros k; cbn [result_mapM].
  - intros [= <-]. constructor.
  - destruct (f x) eqn:Hx; [|done]. destruct (result_mapM f l); [|done].
    intros [= <-]. constructor; [done|]. by apply IH.
Qed.

Lemma checked_all series :
  map_Forall (λ _ v, is_list_or_array v = true) series →
  checked series = (map_to_list series).*2.
Proof.
  intros Hall. unfold checked.
  assert (Forall (λ v, is_list_or_array v = true) (map_to_list series).*2) as H.
  { apply Forall_forall. intros v ([s v'] & -> & Hsv%elem_of_map_to_list)%list_elem_of_fmap.
    by apply (Hall s). }
  induction H as [|v l Hv _ IH]; [done|].
  rewrite filter_cons_True by done. by rewrite IH.
Qed.

(** X8.  The invariant of construction: when the constructor accepts a
    mapping of lists and arrays, all of them have one and the same length,
    and [len] of the dataset is that length. *)
Theorem constructed_dataset_has_one_length (name : string) series
    (series_outputs : gmap string string) self :
  Dataset.__init__ name series series_outputs = Ok self →
  map_Forall (λ _ v, is_list_or_array v = true) series →
  ∃ L, Dataset.__len__ self = Ok L ∧
       ∀ s v, series !! s = Some v → iterable v ∧ series_length v = L.
Proof.
  intros Hinit Hall. unfold Dataset.__init__ in Hinit.
  destruct (Dataset._check_series_lengths _) eqn:Hcheck; [|done].
  injection Hinit as <-.
  unfold Dataset._check_series_lengths in Hcheck. cbn [Dataset._series] in Hcheck.
  fold (checked series) in Hcheck. rewrite (checked_all series Hall) in Hcheck.
  destruct (result_mapM _ _) as [lengths|] eqn:Hm; [|done].
  destruct (decide (1 < size (list_to_set lengths : gset nat))) as [|Hsize];
    [by destruct (result_mapM _ (map_to_list series))|].
  clear Hcheck. apply result_mapM_Forall2 in Hm.
  assert (Hone : ∀ n1 n2, n1 ∈ lengths → n2 ∈ lengths → n1 = n2).
  { intros n1 n2 H1 H2. destruct (decide (n1 = n2)) as [|Hne]; [done|].
    destruct Hsize. by apply (size_list_to_set_two lengths n1 n2). }
  assert (Hval : ∀ s v, series !! s = Some v →
            ∃ n, n ∈ lengths ∧ length <$> py_list v = Ok n).
  { intros s v Hv. apply elem_of_map_to_list in Hv.
    apply (list_elem_of_fmap_2 snd) in Hv. simpl in Hv.
    apply list_elem_of_lookup in Hv as [i Hi].
    destruct (Forall2_lookup_l _ _ _ _ _ Hm Hi) as (n & Hn & Hf).
    exists n. split; [by apply list_elem_of_lookup_2 in Hn|done]. }
  assert (Hlen : ∀ (v : series_value Item) (n : nat),
            length <$> py_list v = Ok n → iterable v ∧ series_length v = n).
  { intros v n Hf. unfold iterable, series_length.
    destruct (py_list v) as [l|]; [|done]. injection Hf as <-. split; [by exists l|done]. }
  unfold Dataset.__len__. cbn [Dataset._series].
  destruct (map_to_list series).*2 as [|v0 vs] eqn:Hvs.
  - exists 0. split; [done|]. intros s v Hv.
    apply elem_of_map_to_list, (list_elem_of_fmap_2 snd) in Hv.
    rewrite Hvs in Hv. by apply elem_of_nil in Hv.
  - inversion Hm as [|? n0 ? ? Hf0 _]; subst. exists n0. split; [done|].
    intros s v Hv. destruct (Hval s v Hv) as (n & Hn & Hf).
    destruct (Hlen v n Hf) as [? <-]. split; [done|].
    apply Hone; [done|by left].
Qed.

(** X9.  [has_series] tells whether [get_series] finds the series: a
    present series is returned whatever [allow_none] is; an absent one
    raises [KeyError] with the name, or gives [None] when [allow_none] is
    set. *)
Theorem get_series_agrees_with_has_series self (name : string) :
  (Dataset.has_series self name = true ↔ is_Ok (Dataset.get_series self name false)) ∧
  (∀ v allow_none, Dataset._series self !! name = Some v →
     Dataset.has_series self name = true ∧
     Dataset.get_series self name allow_none = Ok v) ∧
  (Dataset._series self !! name = None →
     Dataset.has_series self name = false ∧
     Dataset.get_series self name false = Err (MissingSeries name) ∧
     Dataset.get_series self name true = Ok VNone).
Proof.
  unfold Dataset.has_series, Dataset.get_series. split_and!.
  - rewrite bool_decide_eq_true. destruct (Dataset._series self !! name) as [v|].
    + split; [intros _; by exists v | eauto].
    + split; [by intros [] | by intros []].
  - intros v [] Hv; rewrite Hv; (split; [by apply bool_decide_eq_true|done]).
  - intros Hn. rewrite Hn. split_and!; [|done..].
    apply bool_decide_eq_false. by intros [].
Qed.

End eager.

Lemma constructed_dataset_has_one_length_witness :
  Dataset.__init__ "t" (Dataset._series Sample.aligned) ∅ = Ok Sample.aligned ∧
  map_Forall (λ _ v, is_list_or_array v = true) (Dataset._series Sample.aligned) ∧
  ∃ L, Dataset.__len__ Sample.aligned = Ok L ∧
       ∀ s v, Dataset._series Sample.aligned !! s = Some v →
              iterable v ∧ series_length v = L.
Proof.
  assert (Dataset.__init__ "t" (Dataset._series Sample.aligned) ∅ = Ok Sample.aligned)
    as Hinit by (vm_compute; reflexivity).
  assert (map_Forall (λ _ v, is_list_or_array v = true)
            (Dataset._series Sample.aligned)) as Hall by compute_done.
  split_and!; [exact Hinit | exact Hall |].
  exact (constructed_dataset_has_one_length "t" _ ∅ Sample.aligned Hinit Hall).
Defined.

(** ** More on batching *)

Section more_batching.
Context {Item : Type}.
Local Open Scope nat_scope.
Implicit Types (buf items : list Item) (self : Dataset.t Item).

Lemma batch_loop_singletons (k : Z) items :
  (k ≤ 1)%Z → Dataset.batch_loop k [] items = (λ x, [x]) <$> items.
Proof.
  intros Hk. induction items as [|item rest IH]; [done|].
  cbn [Dataset.batch_loop]. cbv zeta. simpl app. simpl length.
  destruct (Z.geb_spec (Z.of_nat 1) k) as [_|?]; [|lia].
  by rewrite IH.
Qed.

(** X10.  With a batch size of 1 or less, also 0 or negative, every item
    comes as a chunk of its own. *)
Theorem small_batch_size_gives_singletons self (serie_name : string) (k : Z)
    (v : series_value Item) items :
  Dataset._series self !! serie_name = Some v →
  py_list v = Ok items →
  (k ≤ 1)%Z →
  Dataset.batch_serie self serie_name k
  = {| yielded := (λ x, [x]) <$> items; finish := Ok () |}.
Proof.
  intros Hv Hitems Hk. unfold Dataset.batch_serie, Dataset.get_series.
  rewrite Hv. simpl. rewrite Hitems. simpl. by rewrite batch_loop_singletons.
Qed.

(** A buffer and the items that fill it make a chunk. *)
Lemma batch_loop_fill (k : Z) buf pre rest :
  pre ≠ [] → Z.of_nat (length buf + length pre) = k →
  Dataset.batch_loop k buf (pre ++ rest)
  = (buf ++ pre) :: Dataset.batch_loop k [] rest.
Proof.
  revert buf. induction pre as [|x pre IH]; intros buf Hne Hlen; [done|].
  cbn [app Dataset.batch_loop]. cbv zeta.
  assert (Hb : Z.of_nat (length (buf ++ [x])) = Z.of_nat (length buf + 1))
    by by rewrite length_app.
  destruct pre as [|y pre].
  - simpl in Hlen. destruct (Z.geb_spec (Z.of_nat (length (buf ++ [x]))) k); [done|lia].
  - simpl in Hlen.
    destruct (Z.geb_spec (Z.of_nat (length (buf ++ [x]))) k); [lia|].
    rewrite IH; [|done|rewrite length_app; simpl; lia].
    by rewrite <-app_assoc.
Qed.

(** Items that do not fill the buffer come as one last chunk. *)
Lemma batch_loop_short (k : Z) buf items :
  (Z.of_nat (length buf + length items) < k)%Z →
  Dataset.batch_loop k buf items
  = match buf ++ items with [] => [] | _ => [buf ++ items] end.
Proof.
  revert buf. induction items as [|x items IH]; intros buf Hlen.
  - simpl. rewrite app_nil_r. by destruct buf.
  - cbn [Dataset.batch_loop]. cbv zeta.
    assert (Hb : Z.of_nat (length (buf ++ [x])) = Z.of_nat (length buf + 1))
      by by rewrite length_app.
    simpl in Hlen.
    destruct (Z.geb_spec (Z.of_nat (length (buf ++ [x]))) k); [lia|].
    rewrite IH by (rewrite length_app; simpl; lia).
    rewrite <-app_assoc. simpl. by destruct buf.
Qed.

Lemma batch_loop_step (k : Z) items :
  (0 < k)%Z → items ≠ [] →
  Dataset.batch_loop k [] items
  = take (Z.to_nat k) items :: Dataset.batch_loop k [] (drop (Z.to_nat k) items).
Proof.
  intros Hk Hne. destruct (decide (Z.to_nat k ≤ length items)) as [Hle|Hgt].
  - rewrite <-(take_drop (Z.to_nat k) items) at 1.
    rewrite batch_loop_fill; [done| |].
    + intros E. apply (f_equal length) in E. rewrite length_take in E.
      simpl in E. lia.
    + rewrite length_take. simpl. lia.
  - rewrite batch_loop_short by (simpl; lia). simpl.
    rewrite take_ge, drop_ge by lia. by destruct items.
Qed.

Lemma batch_loop_lookup (k : Z) items (i : nat) :
  (0 < k)%Z →
  Dataset.batch_loop k [] items !! i
  = if decide (i * Z.to_nat k < length items)
    then Some (take (Z.to_nat k) (drop (i * Z.to_nat k) items)) else None.
Proof.
  intros Hk. revert items. induction i as [|i IH]; intros items.
  - destruct items as [|x items]; [done|].
    rewrite batch_loop_step by done. done.
  - destruct (decide (items = [])) as [->|Hne].
    { rewrite decide_False by (simpl; lia). done. }
    rewrite batch_loop_step by done. simpl. rewrite IH.
    rewrite length_drop, drop_drop.
    replace (Z.to_nat k + i * Z.to_nat k) with (S i * Z.to_nat k) by lia.
    repeat case_decide; try done; lia.
Qed.

(** X11.  For a batch size [k > 0], the chunk number [i] of [batch_serie]
    is the slice of the series from [i*k] up to [(i+1)*k], and there is no
    chunk number [i] once [i*k] reaches the length of the series: chunks
    are consecutive and do not overlap. *)
Theorem chunks_are_consecutive_slices self (serie_name : string) (k : Z)
    (v : series_value Item) items (i : nat) :
  Dataset._series self !! serie_name = Some v →
  py_list v = Ok items →
  (0 < k)%Z →
  yielded (Dataset.batch_serie self serie_name k) !! i
  = if decide (i * Z.to_nat k < length items)
    then Some (take (Z.to_nat k) (drop (i * Z.to_nat k) items)) else None.
Proof.
  intros Hv Hitems Hk. unfold Dataset.batch_serie, Dataset.get_series.
  rewrite Hv. simpl. rewrite Hitems. simpl. by apply batch_loop_lookup.
Qed.

(** X12.  Batching a series that the dataset does not have yields no chunk
    and raises [KeyError] with the name; batching a value that cannot be
    iterated yields no chunk and raises the [TypeError] of the iteration. *)
Theorem batching_without_a_series_raises self (serie_name : string) (k : Z) :
  (Dataset._series self !! serie_name = None →
   Dataset.batch_serie self serie_name k
   = {| yielded := []; finish := Err (MissingSeries serie_name) |}) ∧
  (∀ v e, Dataset._series self !! serie_name = Some v → py_list v = Err e →
   Dataset.batch_serie self serie_name k = {| yielded := []; finish := Err e |}).
Proof.
  unfold Dataset.batch_serie, Dataset.get_series. split.
  - by intros ->.
  - intros v e -> He. simpl. by rewrite He.
Qed.

End more_batching.

Lemma small_batch_size_gives_singletons_witness :
  Dataset._series Sample.five !! "src" = Some (VList [1; 2; 3; 4; 5]) ∧
  py_list (VList [1; 2; 3; 4; 5]) = Ok [1; 2; 3; 4; 5] ∧
  (-3 ≤ 1)%Z ∧
  yielded (Dataset.batch_serie Sample.five "src" (-3)) = [[1]; [2]; [3]; [4]; [5]].
Proof.
  split_and!; [reflexivity | reflexivity | lia |].
  rewrite (small_batch_size_gives_singletons Sample.five "src" (-3)
             (VList [1; 2; 3; 4; 5]) [1; 2; 3; 4; 5]); [reflexivity..|lia].
Defined.

Lemma chunks_are_consecutive_slices_witness :
  Dataset._series Sample.five !! "src" = Some (VList [1; 2; 3; 4; 5]) ∧
  py_list (VList [1; 2; 3; 4; 5]) = Ok [1; 2; 3; 4; 5] ∧
  (0 < 2)%Z ∧
  yielded (Dataset.batch_serie Sample.five "src" 2) !! 2 = Some [5] ∧
  yielded (Dataset.batch_serie Sample.five "src" 2) !! 3 = None.
Proof.
  split_and!; [reflexivity | reflexivity | lia | |].
  - rewrite (chunks_are_consecutive_slices Sample.five "src" 2
               (VList [1; 2; 3; 4; 5]) [1; 2; 3; 4; 5] 2); [reflexivity..|lia].
  - reflexivity.
Defined.

(** ** Aligned datasets *)

Section aligned.
Context {Item : Type}.
Implicit Types (self : Dataset.t Item) (series : gmap string (series_value Item)).
Local Open Scope nat_scope.

Lemma size_list_to_set_all (l : list nat) (L : nat) :
  Forall (λ n, n = L) l → ¬ 1 < size (list_to_set l : gset nat).
Proof.
  intros Hall.
  assert ((list_to_set l : gset nat) ⊆ {[L]}) as Hsub.
  { intros n Hn%elem_of_list_to_set. apply elem_of_singleton.
    by apply (proj1 (Forall_forall _ _) Hall). }
  apply subseteq_size in Hsub. rewrite size_singleton in Hsub. lia.
Qed.

(** A mapping of iterables of one length passes the check. *)
Lemma aligned_mapping_init (name : string) series
    (series_outputs : gmap string string) (L : nat) :
  map_Forall (λ _ v, iterable v ∧ series_length v = L) series →
  Dataset.__init__ name series series_outputs
  = Ok {| Dataset.name := name; Dataset._series := series;
          Dataset.series_outputs := series_outputs |}.
Proof.
  intros Hall. unfold Dataset.__init__, Dataset._check_series_lengths.
  cbn [Dataset._series]. fold (checked series).
  assert (Hin : ∀ v, v ∈ checked series → iterable v ∧ series_length v = L).
  { intros v [_ Hv]%list_elem_of_filter.
    apply list_elem_of_fmap in Hv as ([s v'] & -> & Hsv%elem_of_map_to_list).
    by apply (Hall s). }
  rewrite (result_mapM_Ok _ series_length).
  2:{ apply Forall_forall. intros v Hv. by apply py_list_length, Hin. }
  rewrite decide_False; [done|].
  apply (size_list_to_set_all _ L), Forall_fmap, Forall_forall.
  intros v Hv. by apply Hin.
Qed.

Lemma aligned_len self (L : nat) :
  map_Forall (λ _ v, iterable v ∧ series_length v = L) (Dataset._series self) →
  Dataset._series self ≠ ∅ →
  Dataset.__len__ self = Ok L.
Proof.
  intros Hall Hne. unfold Dataset.__len__.
  destruct (map_to_list (Dataset._series self)) as [|[s v] kvs] eqn:Hkvs.
  { by apply map_to_list_empty_iff in Hkvs. }
  simpl. assert (Dataset._series self !! s = Some v) as Hv.
  { apply elem_of_map_to_list. rewrite Hkvs. by left. }
  destruct (Hall s v Hv) as [Hit <-]. by apply py_list_length.
Qed.

(** X13.  A mapping whose values can all be iterated and have one common
    length is accepted by the constructor as it is, and when it is not
    empty [len] of the dataset is that length. *)
Theorem aligned_mapping_is_accepted (name : string) series
    (series_outputs : gmap string string) (L : nat) :
  map_Forall (λ _ v, iterable v ∧ series_length v = L) series →
  let self := {| Dataset.name := name; Dataset._series := series;
                 Dataset.series_outputs := series_outputs |} in
  Dataset.__init__ name series series_outputs = Ok self ∧
  (series ≠ ∅ → Dataset.__len__ self = Ok L).
Proof.
  intros Hall. cbv zeta. split; [by apply aligned_mapping_init with L|].
  intros Hne. by apply aligned_len.
Qed.

Lemma result_mapM_Err {A B} (f : A → result B) (l : list A) x e :
  x ∈ l → f x = Err e → ∃ e', result_mapM f l = Err e' ∧ ∃ y, y ∈ l ∧ f y = Err e'.
Proof.
  induction l as [|a l IH]; [by intros ?%elem_of_nil|].
  intros Hx He. cbn [result_mapM].
  destruct (f a) as [b|ea] eqn:Ha.
  - apply elem_of_cons in Hx as [->|Hx]; [congruence|].
    destruct (IH Hx He) as (e' & -> & y & Hy & Hfy).
    exists e'. split; [done|]. exists y. split; [by right|done].
  - exists ea. split; [done|]. exists a. split; [by left|done].
Qed.

(** X14.  When one value of the dataset cannot be iterated, as the [None]
    that a lazy dataset holds, [shuffle] raises a [TypeError] and reorders
    nothing. *)
Theorem shuffle_needs_iterable_series (draws : list nat) self (s : string)
    (v : series_value Item) :
  Dataset._series self !! s = Some v →
  ¬ iterable v →
  ∃ msg, Dataset.shuffle draws self = Err (TypeError msg).
Proof.
  intros Hv Hnit. unfold Dataset.shuffle.
  assert (∃ e, py_list v = Err e) as [e He].
  { destruct (py_list v) as [l|e] eqn:Hl; [|eauto]. destruct Hnit. by exists l. }
  apply elem_of_map_to_list, (list_elem_of_fmap_2 snd) in Hv. simpl in Hv.
  destruct (result_mapM_Err py_list _ v e Hv He) as (e' & -> & y & _ & Hy).
  destruct y; simplify_eq/=; eauto.
Qed.

End aligned.

Lemma aligned_mapping_is_accepted_witness :
  map_Forall (λ _ v, iterable v ∧ series_length v = 3) (Dataset._series Sample.aligned) ∧
  Dataset.__init__ "t" (Dataset._series Sample.aligned) ∅ = Ok Sample.aligned.
Proof.
  assert (map_Forall (λ _ v, iterable v ∧ series_length v = 3)
            (Dataset._series Sample.aligned)) as Hall by compute_done.
  split; [exact Hall|].
  exact (proj1 (aligned_mapping_is_accepted "t" _ ∅ 3 Hall)).
Defined.

Lemma shuffle_needs_iterable_series_witness :
  Sample.unequal_and_none !! "c" = Some VNone ∧
  ¬ iterable (VNone : series_value nat) ∧
  ∃ msg,
    Dataset.shuffle [0; 0]
      {| Dataset.name := "x"; Dataset._series := Sample.unequal_and_none;
         Dataset.series_outputs := ∅ |} = Err (TypeError msg).
Proof.
  assert (¬ iterable (VNone : series_value nat)) as Hn by (intros [l Hl]; discriminate).
  split_and!; [reflexivity | exact Hn |].
  exact (shuffle_needs_iterable_series [0; 0]
           {| Dataset.name := "x"; Dataset._series := Sample.unequal_and_none;
              Dataset.series_outputs := ∅ |} "c" VNone eq_refl Hn).
Defined.

(** ** Batching a whole dataset *)

Section zipping_generators.
Context {Y : Type}.
Implicit Types (ts : list (gen_trace Y unit)).
Local Open Scope nat_scope.

Lemma zip_next_rect ts (N : nat) :
  Forall (λ t, length (yielded t) = S N) ts →
  ∃ row, zip_next ts = ZipRow row (advanced <$> ts) ∧
         length row = length ts ∧
         ∀ j, row !! j = ts !! j ≫= (λ t, yielded t !! 0).
Proof.
  induction 1 as [|t ts Ht _ (row & Hrow & Hlen & Hj)].
  - exists []. split_and!; [done..|]. by intros j.
  - cbn [zip_next]. rewrite Hrow.
    destruct (yielded t) as [|y ys] eqn:Hy; [done|].
    exists (y :: row). split_and!; [|simpl; by rewrite Hlen|].
    { csimpl. do 2 f_equal. unfold advanced. by rewrite Hy. }
    intros [|j]; simpl; [by rewrite Hy|apply Hj].
Qed.

Lemma zip_loop_rect (n : nat) ts (N : nat) :
  ts ≠ [] →
  Forall (λ t, finish t = Ok () ∧ length (yielded t) = N) ts →
  N < n →
  finish (zip_loop n ts) = Ok () ∧
  length (yielded (zip_loop n ts)) = N ∧
  ∀ i r, yielded (zip_loop n ts) !! i = Some r →
         length r = length ts ∧ ∀ j, r !! j = ts !! j ≫= (λ t, yielded t !! i).
Proof.
  revert n ts. induction N as [|N IH]; intros n ts Hne Hall Hn.
  - destruct n as [|n]; [lia|]. destruct ts as [|t ts]; [done|].
    destruct (Forall_inv Hall) as [Hf Hy]. apply nil_length_inv in Hy.
    cbn [zip_loop zip_next]. rewrite Hy, Hf. simpl.
    split_and!; [done..|]. intros i r Hr. by rewrite lookup_nil in Hr.
  - destruct n as [|n]; [lia|].
    destruct (zip_next_rect ts N) as (row & Hrow & Hlen & Hj).
    { eapply Forall_impl; [exact Hall|]. by intros t [_ ?]. }
    cbn [zip_loop]. rewrite Hrow. cbv zeta. cbn [yielded finish].
    destruct (IH n (advanced <$> ts)) as (Hfin & Hnum & Hrows).
    { by destruct ts. }
    { apply Forall_fmap. eapply Forall_impl; [exact Hall|].
      intros t [Hf Hy]. simpl. split; [done|]. destruct (yielded t); simpl in *; lia. }
    { lia. }
    split_and!; [done|simpl; by rewrite Hnum|].
    intros [|i] r Hr; simpl in Hr.
    + injection Hr as <-. done.
    + destruct (Hrows i r Hr) as [Hr1 Hr2]. rewrite length_fmap in Hr1.
      split; [done|]. intros j. rewrite Hr2, list_lookup_fmap.
      destruct (ts !! j) as [t|]; simpl; [|done]. by destruct (yielded t).
Qed.

(** Zipping generators that all end normally after [N] items gives the [N]
    tuples of their items at equal positions. *)
Lemma zip_traces_rect ts (N : nat) :
  ts ≠ [] →
  Forall (λ t, finish t = Ok () ∧ length (yielded t) = N) ts →
  finish (zip_traces ts) = Ok () ∧
  length (yielded (zip_traces ts)) = N ∧
  ∀ i r, yielded (zip_traces ts) !! i = Some r →
         length r = length ts ∧ ∀ j, r !! j = ts !! j ≫= (λ t, yielded t !! i).
Proof.
  intros Hne Hall. destruct ts as [|t ts]; [done|]. unfold zip_traces.
  apply zip_loop_rect; [done..|]. destruct (Forall_inv Hall) as [_ ->]. lia.
Qed.

End zipping_generators.

Section dict_of_values.
Context {V W : Type}.

(** A dictionary built from the keys of a dictionary and a value computed
    from each of its values is the dictionary with its values mapped. *)
Lemma dict_of_pairs_zip_keys (g : V → W) (m : gmap string V) :
  dict_of_pairs (zip (map_to_list m).*1 (g <$> (map_to_list m).*2)) = g <$> m.
Proof.
  assert (zip (map_to_list m).*1 (g <$> (map_to_list m).*2)
          = (λ kv, (kv.1, g kv.2)) <$> map_to_list m) as ->.
  { induction (map_to_list m) as [|kv l IH]; csimpl; [done|]. by rewrite IH. }
  assert (NoDup ((λ kv : string * V, (kv.1, g kv.2)) <$> map_to_list m).*1) as Hnd.
  { rewrite <-list_fmap_compose. apply NoDup_fst_map_to_list. }
  assert (Hel : ∀ s x, (s, x) ∈ (λ kv : string * V, (kv.1, g kv.2)) <$> map_to_list m ↔
                       ∃ v, m !! s = Some v ∧ x = g v).
  { intros s x. rewrite list_elem_of_fmap. split.
    - intros ([s' v] & [= -> ->] & Hsv%elem_of_map_to_list). eauto.
    - intros (v & Hv & ->). exists (s, v). split; [done|].
      by apply elem_of_map_to_list. }
  apply map_eq. intros s. rewrite lookup_fmap.
  destruct (m !! s) as [v|] eqn:Hv; simpl.
  - apply dict_of_pairs_lookup; [done|]. apply Hel. eauto.
  - destruct (dict_of_pairs _ !! s) as [x|] eqn:Hx; [|done].
    apply dict_of_pairs_lookup in Hx; [|done].
    apply Hel in Hx as (v & Hv' & _). congruence.
Qed.

End dict_of_values.

Section batching_datasets.
Context {Item : Type}.
Implicit Types (self : Dataset.t Item) (series : gmap string (series_value Item)).
Local Open Scope nat_scope.

Lemma batch_serie_present self (s : string) (k : Z) (v : series_value Item) :
  Dataset._series self !! s = Some v → iterable v →
  Dataset.batch_serie self s k
  = {| yielded := Dataset.batch_loop k [] (series_items v); finish := Ok () |}.
Proof.
  intros Hv Hit. unfold Dataset.batch_serie, Dataset.get_series.
  rewrite Hv. simpl. by rewrite (iterable_items v Hit).
Qed.

Lemma batch_datasets_ok (name : string) (keys : list string) (b : nat)
    (rows : list (list (list Item))) (fin : result unit)
    (mk : nat → Dataset.t Item) :
  (∀ i row, rows !! i = Some row →
     Dataset.__init__ (name +:+ "-batch-" +:+ pretty (b + i))
       (dict_of_pairs (zip keys (VList <$> row))) ∅ = Ok (mk (b + i))) →
  batch_datasets name keys b rows fin
  = {| yielded := (λ i, mk (b + i)) <$> seq 0 (length rows); finish := fin |}.
Proof.
  revert b. induction rows as [|row rows IH]; intros b Hok; [done|].
  cbn [batch_datasets]. pose proof (Hok 0 row eq_refl) as H0.
  rewrite Nat.add_0_r in H0. rewrite H0.
  rewrite (IH (S b)).
  2:{ intros i r Hr. replace (S b + i) with (b + S i) by lia. by apply Hok. }
  cbv zeta. cbn [yielded finish length seq fmap list_fmap]. f_equal.
  rewrite Nat.add_0_r. f_equal. rewrite <-fmap_S_seq, <-list_fmap_compose.
  apply list_fmap_ext. intros _ i _. simpl. f_equal. lia.
Qed.

(** X15.  On a dataset that has series, all iterable and of one length
    [L], and for a batch size [k > 0], [batch_dataset] ends normally after
    [ceil(L/k)] datasets.  The dataset number [i] is named
    [<name>-batch-<i>], has no outputs, holds under every series name the
    slice from [i*k] up to [(i+1)*k] of that series, and has the length of
    that slice: items at equal positions stay together. *)
Theorem batch_dataset_of_an_aligned_dataset self (k : Z) (L : nat) :
  map_Forall (λ _ v, iterable v ∧ series_length v = L) (Dataset._series self) →
  Dataset._series self ≠ ∅ →
  (0 < k)%Z →
  let t := batch_dataset self k in
  finish t = Ok () ∧
  Z.of_nat (length (yielded t)) = ceil_div (Z.of_nat L) k ∧
  ∀ i d, yielded t !! i = Some d →
    d = batch_of self (Z.to_nat k) i ∧
    Dataset.__len__ d = Ok (Z.to_nat k `min` (L - i * Z.to_nat k)).
Proof.
  intros Hall Hne Hk. cbv zeta. unfold batch_dataset. cbv zeta.
  set (series := Dataset._series self) in *.
  set (kvs := map_to_list series).
  set (n := Z.to_nat k).
  set (chunks := λ v : series_value Item, Dataset.batch_loop k [] (series_items v)).
  assert (Hkvs : ∀ s v, (s, v) ∈ kvs → iterable v ∧ length (series_items v) = L).
  { intros s v Hsv%elem_of_map_to_list. destruct (Hall s v Hsv) as [? <-].
    by rewrite series_length_items. }
  assert (Hts : (λ key, Dataset.batch_serie self key k) <$> kvs.*1
                = (λ v, {| yielded := chunks v; finish := Ok () |}) <$> kvs.*2).
  { rewrite <-!list_fmap_compose. apply list_fmap_ext. intros _ [s v] Hsv%list_elem_of_lookup_2.
    simpl. apply batch_serie_present; [by apply elem_of_map_to_list|].
    by apply (Hkvs s). }
  rewrite Hts. clear Hts.
  set (ts := (λ v, {| yielded := chunks v; finish := Ok () |}) <$> kvs.*2).
  pose (N := length (Dataset.batch_loop k [] (replicate L ()))).
  assert (HN : Z.of_nat N = ceil_div (Z.of_nat L) k).
  { unfold N.
    destruct (batch_loop_spec k (replicate L ()) [] Hk) as (_ & -> & _); [simpl; lia|].
    by rewrite length_replicate. }
  assert (Hnum : ∀ s v, (s, v) ∈ kvs → length (chunks v) = N).
  { intros s v Hsv. destruct (Hkvs s v Hsv) as [_ HL].
    destruct (batch_loop_spec k (series_items v) [] Hk) as (_ & Hc & _); [simpl; lia|].
    simpl in Hc. rewrite HL, <-HN in Hc. unfold chunks. lia. }
  assert (Hkne : kvs ≠ []) by (intros E; by apply map_to_list_empty_iff in E).
  destruct (zip_traces_rect ts N) as (Hfin & Hrows & Hrow).
  { unfold ts. by destruct kvs. }
  { unfold ts. apply Forall_fmap, Forall_fmap, Forall_forall.
    intros [s v] Hsv. simpl. split; [done|]. by apply (Hnum s). }
  assert (Hslice : ∀ i row, yielded (zip_traces ts) !! i = Some row →
            i * n < L ∧ VList <$> row = slice n i <$> kvs.*2).
  { intros i row Hi. destruct (Hrow i row Hi) as [Hlen Hj].
    assert (i * n < L) as HiL.
    { destruct kvs as [|[s v] kvs'] eqn:Ekvs; [done|].
      destruct (Hkvs s v ltac:(by left)) as [_ HL].
      pose proof (Hj 0) as H0. unfold ts in H0. simpl in H0.
      unfold chunks in H0. rewrite batch_loop_lookup in H0 by done. fold n in H0.
      case_decide as Hc; [lia|]. destruct row; [simpl in Hlen; lia|done]. }
    split; [done|]. apply list_eq. intros j. rewrite !list_lookup_fmap, Hj.
    unfold ts. rewrite !list_lookup_fmap.
    destruct (kvs !! j) as [[s v]|] eqn:Hkv; simpl; [|done].
    destruct (Hkvs s v (list_elem_of_lookup_2 _ _ _ Hkv)) as [_ HL].
    unfold chunks. rewrite batch_loop_lookup by done. fold n.
    rewrite decide_True by lia. done. }
  rewrite (batch_datasets_ok _ _ 0 _ _ (batch_of self n)).
  2:{ intros i row Hi. destruct (Hslice i row Hi) as [HiL ->].
      unfold kvs. rewrite dict_of_pairs_zip_keys. simpl.
      apply (aligned_mapping_init _ _ _ (n `min` (L - i * n))).
      apply map_Forall_fmap. intros s v Hv. simpl.
      destruct (Hall s v Hv) as [_ HL]. rewrite series_length_items in HL.
      split; [by eexists|]. unfold series_length. simpl.
      rewrite length_take, length_drop. lia. }
  cbn [yielded finish]. split_and!; [done| |].
  - rewrite length_fmap, length_seq. lia.
  - intros i d Hd. rewrite list_lookup_fmap in Hd.
    destruct (seq 0 _ !! i) as [i'|] eqn:Hi; [|done].
    apply lookup_seq in Hi as [-> Hi]. simpl in Hd. injection Hd as <-.
    split; [done|]. rewrite Hrows in Hi.
    apply aligned_len.
    + apply map_Forall_fmap. intros s v Hv. simpl.
      destruct (Hall s v Hv) as [_ HL]. rewrite series_length_items in HL.
      split; [by eexists|]. unfold series_length. simpl.
      rewrite length_take, length_drop. lia.
    + simpl. intros E. apply fmap_empty_inv in E. done.
Qed.

End batching_datasets.

Lemma batch_dataset_of_an_aligned_dataset_witness :
  map_Forall (λ _ v, iterable v ∧ series_length v = 3) (Dataset._series Sample.aligned) ∧
  Dataset._series Sample.aligned ≠ ∅ ∧
  (0 < 2)%Z ∧
  finish (batch_dataset Sample.aligned 2) = Ok () ∧
  Z.of_nat (length (yielded (batch_dataset Sample.aligned 2))) = ceil_div 3 2.
Proof.
  assert (map_Forall (λ _ v, iterable v ∧ series_length v = 3)
            (Dataset._series Sample.aligned)) as Hall by compute_done.
  assert (Dataset._series Sample.aligned ≠ ∅) as Hne.
  { intros E. apply (f_equal (λ m : gmap string (series_value string), m !! "src")) in E.
    vm_compute in E. discriminate. }
  assert (0 < 2)%Z as Hk by lia.
  split_and!; [exact Hall | exact Hne | exact Hk | |];
    apply (batch_dataset_of_an_aligned_dataset Sample.aligned 2 3 Hall Hne Hk).
Defined.

(** ** Loading *)

Section loading.
Context {Item : Type}.
Implicit Types (fs : filesystem Item) (preprocessor : Item → Item)
  (kwargs : gmap string string).
Local Open Scope nat_scope.

Lemma dict_of_pairs_fmap_values {V W} (g : string → V → W) (m : gmap string V) :
  dict_of_pairs ((λ kv, (kv.1, g kv.1 kv.2)) <$> map_to_list m) = map_imap (λ s v, Some (g s v)) m.
Proof.
  assert (NoDup ((λ kv : string * V, (kv.1, g kv.1 kv.2)) <$> map_to_list m).*1) as Hnd.
  { rewrite <-list_fmap_compose. apply NoDup_fst_map_to_list. }
  assert (Hel : ∀ s x, (s, x) ∈ (λ kv : string * V, (kv.1, g kv.1 kv.2)) <$> map_to_list m ↔
                       ∃ v, m !! s = Some v ∧ x = g s v).
  { intros s x. rewrite list_elem_of_fmap. split.
    - intros ([s' v] & [= -> ->] & Hsv%elem_of_map_to_list). eauto.
    - intros (v & Hv & ->). exists (s, v). split; [done|].
      by apply elem_of_map_to_list. }
  apply map_eq. intros s. rewrite map_lookup_imap.
  destruct (m !! s) as [v|] eqn:Hv; simpl.
  - apply dict_of_pairs_lookup; [done|]. apply Hel. eauto.
  - destruct (dict_of_pairs _ !! s) as [x|] eqn:Hx; [|done].
    apply dict_of_pairs_lookup in Hx; [|done].
    apply Hel in Hx as (v & Hv' & _). congruence.
Qed.

Lemma lazy_init_ok (name : string) (series_paths series_outputs : gmap string string)
    (preprocess : Item → Item) :
  LazyDataset.__init__ name series_paths series_outputs preprocess
  = Ok {| LazyDataset.base :=
            {| Dataset.name := name;
               Dataset._series := (λ _, VNone) <$> series_paths;
               Dataset.series_outputs := series_outputs |};
          LazyDataset.series_paths := series_paths;
          LazyDataset.preprocess := preprocess |}.
Proof.
  unfold LazyDataset.__init__.
  unfold Dataset.__init__.
  destruct (_check_series_lengths_single
              {| Dataset.name := name;
                 Dataset._series := (λ _, VNone : series_value Item) <$> series_paths;
                 Dataset.series_outputs := series_outputs |}) as [->|[Hin _]].
  - simpl. rewrite checked_placeholders. simpl. lia.
  - done.
  - simpl in Hin. rewrite checked_placeholders in Hin. by apply elem_of_nil in Hin.
Qed.

(** X16.  Lazy loading reads no file: as soon as the keyword arguments give
    one input series, the result is the lazy dataset of the input paths and
    the output paths, whatever the files are; its name is the given one or,
    without one, the name made of the paths. *)
Theorem lazy_loading_reads_no_file fs (name : option string) preprocessor kwargs :
  _get_series_paths kwargs ≠ ∅ →
  load_dataset_from_files fs name true preprocessor kwargs
  = Ok (Lazy
          {| LazyDataset.base :=
               {| Dataset.name :=
                    default (_get_name_from_paths (_get_series_paths kwargs)) name;
                  Dataset._series := (λ _, VNone) <$> _get_series_paths kwargs;
                  Dataset.series_outputs := _get_series_outputs kwargs |};
             LazyDataset.series_paths := _get_series_paths kwargs;
             LazyDataset.preprocess := preprocessor |}).
Proof.
  intros Hne. unfold load_dataset_from_files. cbv zeta.
  rewrite decide_False by (by intros ?%map_size_empty_iff).
  by rewrite lazy_init_ok.
Qed.

(** X17.  Eager loading of text files of one common number of lines gives
    the dataset that holds, under every input series, the list of the
    preprocessed lines of its file, with the output paths of the keyword
    arguments. *)
Theorem eager_loading_of_text_files fs (name : option string) preprocessor kwargs
    (L : nat) :
  _get_series_paths kwargs ≠ ∅ →
  map_Forall (λ _ path, is_text fs path = true ∧ length (reader_read fs path) = L)
    (_get_series_paths kwargs) →
  load_dataset_from_files fs name false preprocessor kwargs
  = Ok (Eager
          {| Dataset.name :=
               default (_get_name_from_paths (_get_series_paths kwargs)) name;
             Dataset._series :=
               (λ path, VList (preprocessor <$> reader_read fs path))
                 <$> _get_series_paths kwargs;
             Dataset.series_outputs := _get_series_outputs kwargs |}).
Proof.
  intros Hne Hall. unfold load_dataset_from_files. cbv zeta.
  set (paths := _get_series_paths kwargs) in *.
  rewrite decide_False by (by intros ?%map_size_empty_iff).
  rewrite (result_mapM_Ok _
             (λ kp, (kp.1, VList (preprocessor <$> reader_read fs kp.2)))).
  2:{ apply Forall_forall. intros [s path] Hsp%elem_of_map_to_list.
      destruct (Hall s path Hsp) as [Ht _]. unfold is_text in Ht. simpl.
      destruct (magic_from_file fs path) as [file_type|] eqn:Hm; [|done].
      by rewrite (create_dataset_series_text fs path preprocessor file_type). }
  rewrite (dict_of_pairs_fmap_values
             (λ _ path, VList (preprocessor <$> reader_read fs path))).
  assert (map_imap (λ (_ : string) path,
                      Some (VList (preprocessor <$> reader_read fs path))) paths
          = (λ path, VList (preprocessor <$> reader_read fs path)) <$> paths) as ->.
  { apply map_eq. intros s. rewrite map_lookup_imap, lookup_fmap.
    by destruct (paths !! s). }
  assert (map_Forall (λ _ v, iterable v ∧ series_length v = L)
            ((λ path, VList (preprocessor <$> reader_read fs path)) <$> paths)) as Hal.
  { apply map_Forall_fmap. intros s path Hsp. simpl.
    destruct (Hall s path Hsp) as [_ HL]. split; [by eexists|].
    unfold series_length. simpl. by rewrite length_fmap. }
  rewrite (aligned_mapping_init _ _ _ L Hal).
  rewrite (aligned_len _ L); [done|done|].
  simpl. by intros ?%fmap_empty_inv.
Qed.

End loading.

Lemma lazy_loading_reads_no_file_witness :
  _get_series_paths Inputs.kwargs ≠ ∅ ∧
  ∃ d, load_dataset_from_files Inputs.fs None true id Inputs.kwargs = Ok (Lazy d) ∧
       Dataset.name (LazyDataset.base d) = "dataset-train.src-train.tgt" ∧
       LazyDataset.series_paths d !! "source" = Some "train.src".
Proof.
  assert (_get_series_paths Inputs.kwargs ≠ ∅) as Hne.
  { intros E. apply (f_equal (λ m : gmap string string, m !! "source")) in E.
    vm_compute in E. discriminate. }
  split; [exact Hne|]. eexists. split.
  - exact (lazy_loading_reads_no_file Inputs.fs None id Inputs.kwargs Hne).
  - split; vm_compute; reflexivity.
Defined.

Lemma eager_loading_of_text_files_witness :
  _get_series_paths Inputs.kwargs ≠ ∅ ∧
  map_Forall (λ _ path, is_text Inputs.fs path = true ∧
                        length (reader_read Inputs.fs path) = 3)
    (_get_series_paths Inputs.kwargs) ∧
  ∃ d, load_dataset_from_files Inputs.fs None false id Inputs.kwargs = Ok (Eager d) ∧
       Dataset._series d !! "target" = Some (VList ["x"; "y"; "z"]) ∧
       Dataset.series_outputs d !! "target" = Some "out.txt".
Proof.
  assert (_get_series_paths Inputs.kwargs ≠ ∅) as Hne.
  { intros E. apply (f_equal (λ m : gmap string string, m !! "source")) in E.
    vm_compute in E. discriminate. }
  assert (map_Forall (λ _ path, is_text Inputs.fs path = true ∧
                                length (reader_read Inputs.fs path) = 3)
            (_get_series_paths Inputs.kwargs)) as Hall by compute_done.
  split_and!; [exact Hne | exact Hall |]. eexists. split.
  - exact (eager_loading_of_text_files Inputs.fs None id Inputs.kwargs 3 Hne Hall).
  - split; vm_compute; reflexivity.
Defined.

(** ** More on the lazy dataset *)

Section lazy_more.
Context {Item : Type}.
Implicit Types (fs : filesystem Item) (self : LazyDataset.t Item) (hp : heap Item).
Local Open Scope nat_scope.

(** X18.  On a lazy dataset [has_series] tells whether [get_series] finds
    the series.  A present series gives a new generator object, the next of
    the heap, and the objects that exist stay as they are; an absent one
    allocates nothing and raises [KeyError] with the name, or gives [None]
    when [allow_none] is set. *)
Theorem lazy_get_series_agrees_with_has_series self (name : string) hp :
  (∀ path allow_none, LazyDataset.series_paths self !! name = Some path →
     LazyDataset.has_series self name = true ∧
     ∃ hp', LazyDataset.get_series self name allow_none hp
              = (Ok (LazyDataset.RGenerator (length hp)), hp') ∧
            length hp' = S (length hp) ∧
            ∀ h, h < length hp → hp' !! h = hp !! h) ∧
  (LazyDataset.series_paths self !! name = None →
     LazyDataset.has_series self name = false ∧
     LazyDataset.get_series self name false hp = (Err (MissingSeries name), hp) ∧
     LazyDataset.get_series self name true hp = (Ok LazyDataset.RNone, hp)).
Proof.
  unfold LazyDataset.has_series, LazyDataset.get_series. split.
  - intros path allow_none Hp. rewrite Hp. split; [by apply bool_decide_eq_true|].
    eexists. split_and!; [done| |].
    + rewrite length_app. simpl. lia.
    + intros h Hh. by rewrite lookup_app_l.
  - intros Hn. rewrite Hn. split_and!; [|done..].
    apply bool_decide_eq_false. by intros [].
Qed.

(** X19.  The constructor of the lazy dataset always succeeds and keeps, in
    the mapping that it inherits, exactly one [None] per path: the eager
    and the lazy [has_series] agree on every name. *)
Theorem lazy_dataset_holds_one_placeholder_per_path (name : string)
    (series_paths series_outputs : gmap string string) (preprocess : Item → Item) :
  ∃ self,
    LazyDataset.__init__ name series_paths series_outputs preprocess = Ok self ∧
    LazyDataset.series_paths self = series_paths ∧
    dom (Dataset._series (LazyDataset.base self)) = dom series_paths ∧
    (∀ s, Dataset.has_series (LazyDataset.base self) s = LazyDataset.has_series self s) ∧
    (∀ s v, Dataset._series (LazyDataset.base self) !! s = Some v → v = VNone).
Proof.
  eexists. split; [apply lazy_init_ok|]. cbn. split_and!.
  - done.
  - apply dom_fmap_L.
  - intros s. unfold Dataset.has_series, LazyDataset.has_series. cbn.
    apply bool_decide_ext. rewrite lookup_fmap. apply fmap_is_Some.
  - intros s v. rewrite lookup_fmap. destruct (series_paths !! s); by intros [= <-].
Qed.

Lemma batch_loop_concat (k : Z) (items : list Item) :
  concat (Dataset.batch_loop k [] items) = items.
Proof.
  destruct (decide (0 < k)%Z) as [Hk|Hk].
  - by destruct (batch_loop_spec k items [] Hk ltac:(simpl; lia)) as [-> _].
  - rewrite batch_loop_singletons by lia.
    induction items as [|x items IH]; csimpl; [done|]. by rewrite IH.
Qed.

(** X20.  Batching a series of a lazy dataset whose file is text gives the
    consecutive chunks of the preprocessed lines: put end to end, whatever
    the batch size, they are all the lines of the file in order.  The
    generator that was opened for it is left closed, and the objects that
    existed are untouched. *)
Theorem lazy_batches_of_a_text_series fs self (serie_name path : string) (k : Z) hp :
  LazyDataset.series_paths self !! serie_name = Some path →
  is_text fs path = true →
  let lines := LazyDataset.preprocess self <$> reader_read fs path in
  lazy_batch_serie fs self serie_name k hp
  = ({| yielded := Dataset.batch_loop k [] lines; finish := Ok () |},
     hp ++ [GenClosed]) ∧
  concat (yielded (lazy_batch_serie fs self serie_name k hp).1) = lines.
Proof.
  intros Hp Ht. cbv zeta.
  assert (lazy_batch_serie fs self serie_name k hp
          = ({| yielded := Dataset.batch_loop k []
                             (LazyDataset.preprocess self <$> reader_read fs path);
                finish := Ok () |}, hp ++ [GenClosed])) as ->.
  { unfold lazy_batch_serie, LazyDataset.get_series. rewrite Hp.
    rewrite lookup_app_r by lia. rewrite Nat.sub_diag. cbn [lookup list_lookup gen_rest].
    unfold create_dataset_series. unfold is_text in Ht.
    destruct (magic_from_file fs path) as [file_type|]; [|done]. rewrite Ht. simpl.
    f_equal. rewrite insert_app_r_alt by lia. by rewrite Nat.sub_diag. }
  split; [done|]. simpl. apply batch_loop_concat.
Qed.

End lazy_more.

Lemma lazy_batches_of_a_text_series_witness :
  LazyDataset.series_paths Sample.lazy_train !! "src" = Some "train.txt" ∧
  is_text Sample.fs "train.txt" = true ∧
  lazy_batch_serie Sample.fs Sample.lazy_train "src" 2 []
  = ({| yielded := [["a b"; "c d"]; ["e"]]; finish := Ok () |}, [GenClosed]).
Proof.
  split_and!; [reflexivity..|].
  exact (proj1 (lazy_batches_of_a_text_series Sample.fs Sample.lazy_train
                  "src" "train.txt" 2 [] eq_refl eq_refl)).
Defined.

(** ** The feed dictionary of the raw encoder *)

Section feeding.
Context {Row Meta : Type} (zero_row : Meta → Row).
Implicit Types (x : RawRNNEncoder.ndarray Row Meta)
  (series : list (RawRNNEncoder.ndarray Row Meta))
  (self : RawRNNEncoder.t) (dataset : Dataset.t (RawRNNEncoder.ndarray Row Meta)).
Local Open Scope Z_scope.

Lemma foldl_max_spec (a : Z) (l : list Z) :
  a ≤ foldl Z.max a l ∧
  Forall (λ b, b ≤ foldl Z.max a l) l ∧
  (foldl Z.max a l = a ∨ foldl Z.max a l ∈ l).
Proof.
  revert a. induction l as [|b l IH]; intros a; simpl.
  { split_and!; [lia|constructor|by left]. }
  destruct (IH (Z.max a b)) as (Hge & Hall & Hin). split_and!.
  - lia.
  - constructor; [lia|done].
  - destruct Hin as [Hin|Hin]; [|right; by right].
    rewrite Hin. destruct (Z.max_spec a b) as [[_ ->]|[_ ->]]; [right; by left|by left].
Qed.

(** [max] gives an element that no other exceeds. *)
Lemma py_max_spec (l : list Z) m :
  RawRNNEncoder.py_max l = Some m → m ∈ l ∧ Forall (λ b, b ≤ m) l.
Proof.
  destruct l as [|a l]; [done|]. simpl. intros [= <-].
  destruct (foldl_max_spec a l) as (Hge & Hall & Hin). split.
  - destruct Hin as [->|Hin]; [by left|by right].
  - by constructor.
Qed.

(** The rows of a padded array: those of the array up to the recorded
    length, then rows of zeros up to [max_len]. *)
Lemma pad_spec (max_len : Z) x :
  0 ≤ max_len →
  let x' := (RawRNNEncoder.pad zero_row max_len x).1 in
  let len := (RawRNNEncoder.pad zero_row max_len x).2 in
  len = Z.min max_len (RawRNNEncoder.shape0 x) ∧
  RawRNNEncoder.meta x' = RawRNNEncoder.meta x ∧
  Z.of_nat (length (RawRNNEncoder.rows x')) = max_len ∧
  ∀ j : nat,
    RawRNNEncoder.rows x' !! j
    = if decide (Z.of_nat j < len) then RawRNNEncoder.rows x !! j
      else if decide (Z.of_nat j < max_len)
           then Some (zero_row (RawRNNEncoder.meta x)) else None.
Proof.
  intros Hmax. cbv zeta. unfold RawRNNEncoder.pad, RawRNNEncoder.shape0. cbn.
  set (n := length (RawRNNEncoder.rows x)).
  set (len := Z.min max_len (Z.of_nat n)).
  assert (length (take (Z.to_nat len) (RawRNNEncoder.rows x)) = Z.to_nat len) as Htl.
  { rewrite length_take. fold n. lia. }
  split_and!; [done..| |].
  - rewrite length_app, Htl, length_drop, length_replicate. lia.
  - intros j. case_decide as Hj.
    + rewrite lookup_app_l by lia. apply lookup_take_lt. lia.
    + rewrite lookup_app_r by lia. rewrite Htl, lookup_drop.
      case_decide as Hj'.
      * apply lookup_replicate_2. lia.
      * apply lookup_ge_None. rewrite length_replicate. lia.
Qed.

(** What [feed_dict] returns on a series that has arrays, under a cap that
    is not negative. *)
Lemma feed_dict_spec self dataset (train : bool)
    (v : series_value (RawRNNEncoder.ndarray Row Meta)) series :
  Dataset._series dataset !! RawRNNEncoder.data_id self = Some v →
  py_list v = Ok series →
  series ≠ [] →
  from_option (λ cap, 0 ≤ cap) True (RawRNNEncoder.max_input_len self) →
  ∃ fd longest max_len,
    RawRNNEncoder.feed_dict zero_row self dataset train = RawRNNEncoder.Fed fd ∧
    RawRNNEncoder.train_mode fd = train ∧
    (∃ x, x ∈ series ∧ RawRNNEncoder.shape0 x = longest) ∧
    Forall (λ x, RawRNNEncoder.shape0 x ≤ longest) series ∧
    max_len = from_option (λ cap, Z.min cap longest) longest
                (RawRNNEncoder.max_input_len self) ∧
    length (RawRNNEncoder.inputs fd) = length series ∧
    length (RawRNNEncoder._input_lengths fd) = length series ∧
    ∀ (i : nat) x, series !! i = Some x →
      ∃ x',
        RawRNNEncoder.inputs fd !! i = Some x' ∧
        RawRNNEncoder._input_lengths fd !! i
          = Some (Z.min max_len (RawRNNEncoder.shape0 x)) ∧
        RawRNNEncoder.meta x' = RawRNNEncoder.meta x ∧
        Z.of_nat (length (RawRNNEncoder.rows x')) = max_len ∧
        ∀ j : nat,
          RawRNNEncoder.rows x' !! j
          = if decide (Z.of_nat j < Z.min max_len (RawRNNEncoder.shape0 x))
            then RawRNNEncoder.rows x !! j
            else if decide (Z.of_nat j < max_len)
                 then Some (zero_row (RawRNNEncoder.meta x)) else None.
Proof.
  intros Hv Hseries Hne Hcap.
  unfold RawRNNEncoder.feed_dict, Dataset.get_series. rewrite Hv. simpl.
  rewrite Hseries. simpl.
  destruct (RawRNNEncoder.py_max (RawRNNEncoder.shape0 <$> series)) as [longest|] eqn:Hmax.
  2:{ destruct series; [done|discriminate]. }
  apply py_max_spec in Hmax as [Hin Hall].
  apply list_elem_of_fmap in Hin as (x0 & Hx0 & Hin).
  rewrite Forall_fmap in Hall.
  assert (0 ≤ longest) as Hl0 by (rewrite Hx0; unfold RawRNNEncoder.shape0; lia).
  set (max_len := match RawRNNEncoder.max_input_len self with
                  | Some cap => Z.min cap longest
                  | None => longest
                  end).
  assert (0 ≤ max_len) as Hm0.
  { unfold max_len. destruct (RawRNNEncoder.max_input_len self); simpl in *; lia. }
  destruct (Z.ltb_spec max_len 0) as [?|_]; [lia|].
  eexists _, longest, max_len. split; [reflexivity|].
  cbn [RawRNNEncoder.train_mode RawRNNEncoder.inputs RawRNNEncoder._input_lengths].
  split_and!; [done|by exists x0|exact Hall| |by rewrite length_fmap..|].
  { unfold max_len. by destruct (RawRNNEncoder.max_input_len self). }
  intros i x Hi. exists (RawRNNEncoder.pad zero_row max_len x).1.
  rewrite !list_lookup_fmap, Hi. simpl.
  destruct (pad_spec max_len x Hm0) as (Hlen & Hmeta & Hrows & Hj).
  split_and!; [done|done|done|done|]. intros j. rewrite Hj. by rewrite Hlen.
Qed.

(** X21.  When the series of the encoder has arrays and a length cap, if
    there is one, is not negative, [feed_dict] returns one padded array and
    one length per array of the series.  All padded arrays have [max_len]
    rows, the largest number of rows in the series, or the cap when that is
    smaller.  Each recorded length is the number of rows of its array, at
    most [max_len]; up to it the padded array has the rows of the array,
    and after it rows of zeros. *)
Theorem feed_dict_pads_to_one_length self dataset (train : bool)
    (v : series_value (RawRNNEncoder.ndarray Row Meta)) series :
  Dataset._series dataset !! RawRNNEncoder.data_id self = Some v →
  py_list v = Ok series →
  series ≠ [] →
  from_option (λ cap, 0 ≤ cap) True (RawRNNEncoder.max_input_len self) →
  ∃ fd longest max_len,
    RawRNNEncoder.feed_dict zero_row self dataset train = RawRNNEncoder.Fed fd ∧
    RawRNNEncoder.train_mode fd = train ∧
    (∃ x, x ∈ series ∧ RawRNNEncoder.shape0 x = longest) ∧
    Forall (λ x, RawRNNEncoder.shape0 x ≤ longest) series ∧
    max_len = from_option (λ cap, Z.min cap longest) longest
                (RawRNNEncoder.max_input_len self) ∧
    length (RawRNNEncoder.inputs fd) = length series ∧
    length (RawRNNEncoder._input_lengths fd) = length series ∧
    ∀ (i : nat) x, series !! i = Some x →
      ∃ x',
        RawRNNEncoder.inputs fd !! i = Some x' ∧
        RawRNNEncoder._input_lengths fd !! i
          = Some (Z.min max_len (RawRNNEncoder.shape0 x)) ∧
        RawRNNEncoder.meta x' = RawRNNEncoder.meta x ∧
        Z.of_nat (length (RawRNNEncoder.rows x')) = max_len ∧
        ∀ j : nat,
          RawRNNEncoder.rows x' !! j
          = if decide (Z.of_nat j < Z.min max_len (RawRNNEncoder.shape0 x))
            then RawRNNEncoder.rows x !! j
            else if decide (Z.of_nat j < max_len)
                 then Some (zero_row (RawRNNEncoder.meta x)) else None.
Proof. apply feed_dict_spec. Qed.

(** X22.  Without a length cap nothing is cut: every recorded length is
    the number of rows of its array, and the padded array starts with all
    the rows of the array. *)
Theorem feed_dict_without_cap_keeps_every_row self dataset (train : bool)
    (v : series_value (RawRNNEncoder.ndarray Row Meta)) series :
  Dataset._series dataset !! RawRNNEncoder.data_id self = Some v →
  py_list v = Ok series →
  series ≠ [] →
  RawRNNEncoder.max_input_len self = None →
  ∃ fd,
    RawRNNEncoder.feed_dict zero_row self dataset train = RawRNNEncoder.Fed fd ∧
    ∀ (i : nat) x, series !! i = Some x →
      ∃ x',
        RawRNNEncoder.inputs fd !! i = Some x' ∧
        RawRNNEncoder._input_lengths fd !! i = Some (RawRNNEncoder.shape0 x) ∧
        take (length (RawRNNEncoder.rows x)) (RawRNNEncoder.rows x')
        = RawRNNEncoder.rows x.
Proof.
  intros Hv Hseries Hne Hcap.
  destruct (feed_dict_spec self dataset train v series Hv Hseries Hne)
    as (fd & longest & max_len & Hfd & _ & _ & Hall & Hmax & _ & _ & Hrows).
  { by rewrite Hcap. }
  rewrite Hcap in Hmax. simpl in Hmax. subst max_len.
  exists fd. split; [done|]. intros i x Hi.
  destruct (Hrows i x Hi) as (x' & Hx' & Hlen & _ & _ & Hj).
  assert (RawRNNEncoder.shape0 x ≤ longest) as Hle
    by exact (Forall_lookup_1 _ _ _ _ Hall Hi).
  rewrite Z.min_r in Hlen, Hj by done.
  exists x'. split_and!; [done..|].
  apply list_eq. intros j. destruct (decide (j < length (RawRNNEncoder.rows x))%nat).
  - rewrite lookup_take_lt by done. rewrite Hj.
    rewrite decide_True; [done|]. unfold RawRNNEncoder.shape0. lia.
  - rewrite lookup_take_ge by lia. symmetry. apply lookup_ge_None. lia.
Qed.

(** X23.  [feed_dict] fails before it builds anything in three cases: the
    dataset lacks the series of the encoder ([KeyError]), the series is
    empty (the [ValueError] of [max]), or the length cap is negative (the
    [ValueError] of [np.zeros]). *)
Theorem feed_dict_failures self dataset (train : bool) :
  (Dataset._series dataset !! RawRNNEncoder.data_id self = None →
   RawRNNEncoder.feed_dict zero_row self dataset train
   = RawRNNEncoder.FeedRaised
       (RawRNNEncoder.DatasetError (MissingSeries (RawRNNEncoder.data_id self)))) ∧
  (∀ v, Dataset._series dataset !! RawRNNEncoder.data_id self = Some v →
        py_list v = Ok [] →
   RawRNNEncoder.feed_dict zero_row self dataset train
   = RawRNNEncoder.FeedRaised
       (RawRNNEncoder.ValueError "max() arg is an empty sequence")) ∧
  (∀ v series cap,
     Dataset._series dataset !! RawRNNEncoder.data_id self = Some v →
     py_list v = Ok series → series ≠ [] →
     RawRNNEncoder.max_input_len self = Some cap → cap < 0 →
   RawRNNEncoder.feed_dict zero_row self dataset train
   = RawRNNEncoder.FeedRaised
       (RawRNNEncoder.ValueError "negative dimensions are not allowed")).
Proof.
  unfold RawRNNEncoder.feed_dict, Dataset.get_series. split_and!.
  - by intros ->.
  - intros v -> Hl. simpl. by rewrite Hl.
  - intros v series cap -> Hl Hne -> Hcap. simpl. rewrite Hl. simpl.
    destruct (RawRNNEncoder.py_max (RawRNNEncoder.shape0 <$> series)) as [longest|] eqn:Hmax.
    2:{ destruct series; [done|discriminate]. }
    destruct (Z.ltb_spec (Z.min cap longest) 0); [done|lia].
Qed.

End feeding.

Lemma feed_dict_pads_to_one_length_witness :
  Dataset._series Inputs.arrays !! "x"
    = Some (VList [ {| RawRNNEncoder.meta := (); RawRNNEncoder.rows := [1; 2] |};
                    {| RawRNNEncoder.meta := (); RawRNNEncoder.rows := [3; 4; 5] |};
                    {| RawRNNEncoder.meta := (); RawRNNEncoder.rows := [6] |} ]) ∧
  from_option (λ cap, 0 ≤ cap)%Z True (RawRNNEncoder.max_input_len (Inputs.encoder (Some 2%Z))) ∧
  ∃ fd, RawRNNEncoder.feed_dict (λ _, 0) (Inputs.encoder (Some 2%Z)) Inputs.arrays true
          = RawRNNEncoder.Fed fd ∧
        RawRNNEncoder.train_mode fd = true ∧
        length (RawRNNEncoder.inputs fd) = 3.
Proof.
  assert (from_option (λ cap, 0 ≤ cap)%Z True
            (RawRNNEncoder.max_input_len (Inputs.encoder (Some 2%Z)))) as Hcap
    by (simpl; lia).
  split_and!; [reflexivity | exact Hcap |].
  destruct (feed_dict_pads_to_one_length (λ _, 0) (Inputs.encoder (Some 2%Z))
              Inputs.arrays true _ _ eq_refl eq_refl ltac:(discriminate) Hcap)
    as (fd & longest & max_len & Hfd & Htrain & _ & _ & _ & Hlen & _).
  exists fd. split_and!; [exact Hfd | exact Htrain | exact Hlen].
Defined.

Lemma feed_dict_without_cap_keeps_every_row_witness :
  RawRNNEncoder.max_input_len (Inputs.encoder None) = None ∧
  ∃ fd, RawRNNEncoder.feed_dict (λ _, 0) (Inputs.encoder None) Inputs.arrays false
          = RawRNNEncoder.Fed fd ∧
        RawRNNEncoder._input_lengths fd = [2; 3; 1]%Z.
Proof.
  split; [reflexivity|].
  destruct (feed_dict_without_cap_keeps_every_row (λ _, 0) (Inputs.encoder None)
              Inputs.arrays false _ _ eq_refl eq_refl ltac:(discriminate) eq_refl)
    as (fd & Hfd & _).
  exists fd. split; [exact Hfd|].
  vm_compute in Hfd. injection Hfd as <-. reflexivity.
Defined.

(** ** Shuffling series of unequal lengths *)

Section ragged.
Context {A : Type}.
Implicit Types (m cols : list (list A)) (draws : list nat).
Local Open Scope nat_scope.

Lemma heads_nonempty m :
  Forall (λ c, 0 < length c) m →
  ∃ row, heads m = Some row ∧ length row = length m ∧
         ∀ k, row !! k = m !! k ≫= (.!! 0).
Proof.
  induction 1 as [|c m Hc _ (row & Hrow & Hlen & Hk)].
  - exists []. split_and!; [done..|]. by intros k.
  - destruct c as [|a c]; [simpl in Hc; lia|]. exists (a :: row). unfold heads in *.
    split_and!.
    + cbn. by rewrite Hrow.
    + simpl. by rewrite Hlen.
    + intros [|k]; [done|]. simpl. apply Hk.
Qed.

Lemma heads_empty_column m :
  Exists (λ c, length c = 0) m → heads m = None.
Proof.
  unfold heads. induction 1 as [c m Hc|c m _ IH].
  - apply nil_length_inv in Hc as ->. done.
  - cbn. destruct (head c); [|done]. cbn. fold (@mapM option _ _ _ _ (@head A)).
    by rewrite IH.
Qed.

(** [zip] stops with the shortest of its arguments. *)
Lemma zip_rows_ragged (n : nat) m (mn : nat) :
  Forall (λ c, mn ≤ length c) m →
  Exists (λ c, length c = mn) m →
  mn ≤ n →
  length (zip_rows n m) = mn ∧
  ∀ i r, zip_rows n m !! i = Some r →
         length r = length m ∧ ∀ k, r !! k = m !! k ≫= (.!! i).
Proof.
  revert n m. induction mn as [|mn IH]; intros n m Hall Hex Hn.
  - assert (zip_rows n m = []) as ->.
    { destruct n; [done|]. cbn [zip_rows]. by rewrite heads_empty_column. }
    split; [done|]. intros i r Hr. by rewrite lookup_nil in Hr.
  - destruct n as [|n]; [lia|].
    destruct (heads_nonempty m) as (row & Hrow & Hlen & Hk).
    { eapply Forall_impl; [exact Hall|]. simpl. lia. }
    cbn [zip_rows]. rewrite Hrow.
    destruct (IH n (tail <$> m)) as [Hnum Hi].
    { apply Forall_fmap. eapply Forall_impl; [exact Hall|].
      intros [|a c] Hc; simpl in *; lia. }
    { apply Exists_fmap. eapply Exists_impl; [exact Hex|].
      intros [|a c] Hc; simpl in *; lia. }
    { lia. }
    split; [simpl; by rewrite Hnum|].
    intros [|i] r Hr; simpl in Hr.
    + injection Hr as <-. done.
    + destruct (Hi i r Hr) as [Hr1 Hr2]. rewrite length_fmap in Hr1.
      split; [done|]. intros k. rewrite Hr2, list_lookup_fmap.
      destruct (m !! k) as [c|]; simpl; [|done]. by destruct c.
Qed.

Lemma zip_star_ragged m (mn : nat) :
  m ≠ [] →
  Forall (λ c, mn ≤ length c) m →
  Exists (λ c, length c = mn) m →
  length (zip_star m) = mn ∧
  ∀ i r, zip_star m !! i = Some r →
         length r = length m ∧ ∀ k, r !! k = m !! k ≫= (.!! i).
Proof.
  intros Hne Hall Hex. destruct m as [|c m]; [done|]. unfold zip_star.
  apply zip_rows_ragged; [done..|]. exact (Forall_inv Hall).
Qed.

(** Zipping, shuffling and zipping back columns of unequal lengths: the
    columns come back cut to the shortest length, read through the same
    shuffled indices. *)
Lemma shuffled_columns_ragged cols draws (mn : nat) :
  cols ≠ [] →
  Forall (λ c, mn ≤ length c) cols →
  Exists (λ c, length c = mn) cols →
  0 < mn →
  let cols' := zip_star (random_shuffle draws (zip_star cols)) in
  length cols' = length cols ∧
  ∀ k c c', cols !! k = Some c → cols' !! k = Some c' →
    length c' = mn ∧
    ∀ i, c' !! i = random_shuffle draws (seq 0 mn) !! i ≫= (c !!.).
Proof.
  intros Hne Hall Hex Hmn. cbv zeta.
  destruct (zip_star_ragged cols mn Hne Hall Hex) as [Hrl Hrows].
  set (rows := zip_star cols) in *.
  set (rows' := random_shuffle draws rows).
  assert (length rows' = mn) as Hrl' by (unfold rows'; by rewrite random_shuffle_length).
  assert (rows' ≠ []) as Hne' by (intros E; rewrite E in Hrl'; simpl in Hrl'; lia).
  assert (Forall (λ r, length r = length cols) rows') as Hall'.
  { unfold rows'. rewrite random_shuffle_Permutation.
    apply Forall_lookup. intros i r Hr. by apply (Hrows i r). }
  destruct (zip_star_spec rows' (length cols) Hne' Hall') as [Hcl Hcols].
  split; [done|]. intros k c c' Hc Hc'.
  destruct (Hcols k c' Hc') as [Hlen Hread]. split; [lia|].
  intros i. rewrite Hread. unfold rows'. rewrite random_shuffle_lookup, Hrl.
  destruct (random_shuffle draws (seq 0 mn) !! i) as [j|] eqn:Hj; simpl; [|done].
  assert (j < mn) as Hjm.
  { apply list_elem_of_lookup_2 in Hj.
    rewrite random_shuffle_Permutation in Hj. apply elem_of_seq in Hj. lia. }
  destruct (lookup_lt_is_Some_2 rows j) as [r Hr]; [lia|].
  rewrite Hr. simpl. destruct (Hrows j r Hr) as [_ Hrk]. by rewrite Hrk, Hc.
Qed.

End ragged.

Section ragged_dataset.
Context {Item : Type}.
Implicit Types (self : Dataset.t Item) (draws : list nat).
Local Open Scope nat_scope.

(** X24.  When the series of a dataset can all be iterated but differ in
    length, and the shortest has [mn > 0] items, [shuffle] cuts every
    series to its first [mn] items: after the call every series is a tuple
    of [mn] items, the old items at positions below [mn] rearranged by one
    permutation common to all series, and [len] of the dataset is [mn].
    The items beyond the shortest length are lost. *)
Theorem shuffle_cuts_to_the_shortest_series draws self (mn : nat)
    (s0 : string) (v0 : series_value Item) :
  map_Forall (λ _ v, iterable v ∧ mn ≤ series_length v) (Dataset._series self) →
  Dataset._series self !! s0 = Some v0 →
  series_length v0 = mn →
  0 < mn →
  ∃ (p : list nat) (self' : Dataset.t Item),
    p ≡ₚ seq 0 mn ∧
    Dataset.shuffle draws self = Ok self' ∧
    Dataset.__len__ self' = Ok mn ∧
    ∀ s v, Dataset._series self !! s = Some v →
      ∃ items', Dataset._series self' !! s = Some (VTuple items') ∧
                length items' = mn ∧
                ∀ i, items' !! i = p !! i ≫= (series_items v !!.).
Proof.
  intros Hall Hv0 Hl0 Hmn. set (series := Dataset._series self) in *.
  set (p := random_shuffle draws (seq 0 mn)).
  set (kvs := map_to_list series).
  set (cols := series_items <$> kvs.*2).
  assert (Hcols : result_mapM py_list kvs.*2 = Ok cols).
  { apply result_mapM_Ok, Forall_forall.
    intros v ([s v'] & -> & Hsv%elem_of_map_to_list)%list_elem_of_fmap.
    apply iterable_items. by destruct (Hall s v' Hsv). }
  assert (Hlens : Forall (λ c, mn ≤ length c) cols).
  { unfold cols. apply Forall_fmap, Forall_forall.
    intros v ([s v'] & -> & Hsv%elem_of_map_to_list)%list_elem_of_fmap.
    simpl. rewrite <-series_length_items. by destruct (Hall s v' Hsv). }
  assert (Hex : Exists (λ c, length c = mn) cols).
  { apply Exists_exists. exists (series_items v0). split.
    - apply list_elem_of_fmap_2, (list_elem_of_fmap_2 snd (map_to_list series) (s0, v0)).
      by apply elem_of_map_to_list.
    - by rewrite <-series_length_items. }
  assert (Hne : cols ≠ []).
  { intros E. rewrite E in Hex. by apply Exists_nil in Hex. }
  set (cols' := zip_star (random_shuffle draws (zip_star cols))).
  destruct (shuffled_columns_ragged cols draws mn Hne Hlens Hex Hmn) as [Hcl Hread].
  fold cols' in Hcl, Hread.
  assert (Hkeys : NoDup kvs.*1) by apply NoDup_fst_map_to_list.
  assert (Hlk : length kvs.*1 = length cols') by (unfold cols in Hcl; rewrite !length_fmap in *; lia).
  assert (Hat : ∀ s v, series !! s = Some v →
            ∃ items', Dataset.assign_series series (zip kvs.*1 cols') !! s
                        = Some (VTuple items') ∧
                      length items' = mn ∧
                      ∀ i, items' !! i = p !! i ≫= (series_items v !!.)).
  { intros s v Hv. apply elem_of_map_to_list in Hv. fold kvs in Hv.
    apply list_elem_of_lookup in Hv as [k Hk].
    assert (cols !! k = Some (series_items v)) as Hck.
    { unfold cols. by rewrite !list_lookup_fmap, Hk. }
    destruct (lookup_lt_is_Some_2 cols' k) as [c' Hc'].
    { rewrite Hcl. by apply lookup_lt_Some in Hck. }
    destruct (Hread k _ c' Hck Hc') as [Hlen Hi].
    exists c'. split_and!; [|done..].
    destruct (assign_series_lookup series kvs.*1 cols' s Hkeys Hlk) as [Hin _].
    apply (Hin k); [|done]. by rewrite list_lookup_fmap, Hk. }
  exists p, {| Dataset.name := Dataset.name self;
               Dataset._series := Dataset.assign_series series (zip kvs.*1 cols');
               Dataset.series_outputs := Dataset.series_outputs self |}.
  split_and!.
  - apply random_shuffle_Permutation.
  - unfold Dataset.shuffle. fold series kvs. by rewrite Hcols.
  - apply aligned_len.
    + cbn [Dataset._series]. intros s v' Hv'.
      destruct (series !! s) as [v|] eqn:Hv.
      * destruct (Hat s v Hv) as (items' & Hs & Hlen & _).
        rewrite Hs in Hv'. injection Hv' as <-. split; [by eexists|].
        by unfold series_length.
      * destruct (assign_series_lookup series kvs.*1 cols' s Hkeys Hlk) as [_ Hout].
        rewrite Hout in Hv'; [congruence|].
        intros ([s' v] & -> & Hsv%elem_of_map_to_list)%list_elem_of_fmap.
        simpl in Hv. congruence.
    + cbn [Dataset._series]. intros E.
      destruct (Hat s0 v0 Hv0) as (items' & Hs & _). by rewrite E in Hs.
  - exact Hat.
Qed.


End ragged_dataset.

Lemma shuffle_cuts_to_the_shortest_series_witness :
  map_Forall (λ _ v, iterable v ∧ (2 ≤ series_length v)%nat) (Dataset._series Inputs.ragged) ∧
  Dataset._series Inputs.ragged !! "b" = Some (VTuple [5; 6]) ∧
  ∃ self',
    Dataset.shuffle [0] Inputs.ragged = Ok self' ∧
    Dataset.__len__ self' = Ok 2 ∧
    Dataset._series self' !! "a" = Some (VTuple [2; 1]).
Proof.
  assert (map_Forall (λ _ v, iterable v ∧ (2 ≤ series_length v)%nat)
            (Dataset._series Inputs.ragged)) as Hall by compute_done.
  split_and!; [exact Hall | reflexivity |].
  destruct (shuffle_cuts_to_the_shortest_series [0] Inputs.ragged 2 "b"
              (VTuple [5; 6]) Hall eq_refl eq_refl ltac:(lia))
    as (p & self' & _ & Hs & Hlen & _).
  exists self'. split_and!; [exact Hs | exact Hlen |].
  vm_compute in Hs. injection Hs as <-. reflexivity.
Defined.


(** ** Loading files that cannot be read as series *)

(** X26.  Eager loading returns no dataset when the series of one input
    path cannot be created, for instance for a file of an unsupported type:
    the call ends in an exception. *)
Theorem eager_loading_fails_on_a_bad_file {Item : Type} (fs : filesystem Item)
    (name : option string) (preprocessor : Item → Item)
    (kwargs : gmap string string) (series path : string) (e : exn) :
  _get_series_paths kwargs !! series = Some path →
  list_of_gen (create_dataset_series fs path preprocessor) = Err e →
  ∃ e', load_dataset_from_files fs name false preprocessor kwargs = Err e'.
Proof.
  intros Hp He. unfold load_dataset_from_files. cbv zeta.
  case_decide; [eauto|].
  destruct (result_mapM_Err
              (λ kp : string * string,
                 (λ l, (kp.1, VList l)) <$>
                   list_of_gen (create_dataset_series fs kp.2 preprocessor))
              (map_to_list (_get_series_paths kwargs)) (series, path) e)
    as (e' & -> & _); [by apply elem_of_map_to_list|by simpl; rewrite He|eauto].
Qed.

Lemma eager_loading_fails_on_a_bad_file_witness :
  _get_series_paths {[ "s_img" := "logo.png"; "s_source" := "train.src" ]} !! "img"
    = Some "logo.png" ∧
  list_of_gen (create_dataset_series Inputs.fs "logo.png" id)
    = Err (Exception "Unsupported data type: image/png, file logo.png") ∧
  ∃ e', load_dataset_from_files Inputs.fs None false id
          {[ "s_img" := "logo.png"; "s_source" := "train.src" ]} = Err e'.
Proof.
  split_and!; [vm_compute; reflexivity | reflexivity |].
  apply (eager_loading_fails_on_a_bad_file Inputs.fs None id _ "img" "logo.png"
           (Exception "Unsupported data type: image/png, file logo.png"));
    [vm_compute; reflexivity | reflexivity].
Defined.
